(** * Treemap scale-to-alpha mapping: the three variants of [computeAlpha]
      and [mapData]

    The repository holds three copies of the same small program:

    - the standalone script [02.矩形树图.js]            (module [Script]);
    - the first Vue component [TreeMap]                 (module [TreeMapA]);
    - the second Vue component [TreeMap], which adds a
      [format] property and a click event               (module [TreeMapB]).

    Each copy declares [BASE_RGB], [MIN_ALPHA], [MAX_ALPHA], [computeAlpha]
    and [mapData].  They are embedded one by one, each from its own text.

    ** Numbers

    A JavaScript number is modelled by [jsnum]: [NaN], the two infinities,
    or a finite value carried as a real.  Arithmetic on finite values is
    real arithmetic whose result overflows to an infinity where binary64
    does; rounding to binary64 and underflow are not modelled, [Math.PI] is
    [PI] and [Math.cos] is [cos].  The propagation of [NaN] and of the
    infinities follows IEEE 754 as ECMAScript prescribes.  The model has one
    zero; the sign of a zero can only be observed through a division by it,
    and [computeAlpha] divides by [max - min] only after [max === min]
    failed.

    ** Values

    A field of a record can hold any [jsval]: [undefined], [null], a
    boolean, a number, a string, or an ordinary object with own data
    properties, kept as an association list whose first binding of a key is
    the one that is read.  The built-in prototypes are taken as the language
    defines them.  An object that has an own property [toString] cannot be
    converted to a number or to a string, since no value of the model can be
    called: [ToNumber] and [ToString] throw a [TypeError] on it, as
    [OrdinaryToPrimitive] prescribes.  Any other object converts through the
    built-in [Object.prototype.toString].

    Only own properties are read: the properties that a primitive value or
    an object gets from a prototype, and the [length] and the indices of a
    string, read as [undefined].  Statements that depend on what a key
    reads take an object, [null] or [undefined] as the record and say so.
    Accessors, functions and arrays as field values, symbols and BigInts are
    outside the model.

    A string is the sequence of the bytes of its UTF-8 encoding.  The
    conversion of a string to a number, [Str.to_number], strips the white
    space and the line terminators of ECMAScript (Unicode 6.3 and later) and
    reads a numeric literal; its value is exact, as that of every finite
    number here.

    ** Calls

    [Math.min(...scales)] is [Math.min] applied to the elements of
    [scales]; the limit that an engine puts on the number of arguments of a
    call is not modelled.  Code that can throw returns a [result]. *)

From Stdlib Require Import Reals Lra Lia ZArith List String Ascii Bool.
From Stdlib Require Import DecimalString Permutation.
Import ListNotations.

Local Open Scope R_scope.
Local Open Scope string_scope.

Set Warnings "-register-all".

(** ** JavaScript numbers *)

Inductive jsnum : Type :=
| NaN
| PInf
| NInf
| Fin (r : R).

Module JS.

(** [x === y] on numbers: [NaN] differs from everything, itself included. *)
Definition strict_eq (x y : jsnum) : bool :=
  match x, y with
  | Fin a, Fin b => if Req_dec_T a b then true else false
  | PInf, PInf => true
  | NInf, NInf => true
  | _, _ => false
  end.

(** [x < y] on numbers; any comparison with [NaN] is false. *)
Definition lt (x y : jsnum) : bool :=
  match x, y with
  | NaN, _ | _, NaN => false
  | _, NInf => false
  | NInf, _ => true
  | PInf, _ => false
  | Fin _, PInf => true
  | Fin a, Fin b => if Rlt_dec a b then true else false
  end.

(** [x <= y] on numbers; any comparison with [NaN] is false. *)
Definition le (x y : jsnum) : bool :=
  match x, y with
  | NaN, _ | _, NaN => false
  | NInf, _ => true
  | _, PInf => true
  | _, NInf => false
  | PInf, _ => false
  | Fin a, Fin b => if Rle_dec a b then true else false
  end.

(** Finite results at or beyond [huge] = 2^1024 - 2^970, half an ulp above
    the largest binary64 value, become infinite. *)
Definition huge : R := IZR (2 ^ 1024 - 2 ^ 970).

Definition overflow (r : R) : jsnum :=
  if Rle_dec huge r then PInf
  else if Rle_dec r (- huge) then NInf
  else Fin r.

Definition neg (x : jsnum) : jsnum :=
  match x with
  | NaN => NaN
  | PInf => NInf
  | NInf => PInf
  | Fin a => Fin (- a)
  end.

(** [x + y] *)
Definition add (x y : jsnum) : jsnum :=
  match x, y with
  | NaN, _ | _, NaN => NaN
  | PInf, NInf | NInf, PInf => NaN
  | PInf, _ | _, PInf => PInf
  | NInf, _ | _, NInf => NInf
  | Fin a, Fin b => overflow (a + b)
  end.

(** [x - y] *)
Definition sub (x y : jsnum) : jsnum := add x (neg y).

(** The infinity that carries the sign of the finite, non-zero [a];
    [NaN] when [a] is zero. *)
Definition inf_signed (positive : bool) (a : R) : jsnum :=
  if Rlt_dec 0 a then (if positive then PInf else NInf)
  else if Rlt_dec a 0 then (if positive then NInf else PInf)
  else NaN.

(** [x * y] *)
Definition mul (x y : jsnum) : jsnum :=
  match x, y with
  | NaN, _ | _, NaN => NaN
  | Fin a, Fin b => overflow (a * b)
  | PInf, PInf | NInf, NInf => PInf
  | PInf, NInf | NInf, PInf => NInf
  | PInf, Fin a | Fin a, PInf => inf_signed true a
  | NInf, Fin a | Fin a, NInf => inf_signed false a
  end.

(** [x / y].  A zero divisor is taken as [+0]. *)
Definition div (x y : jsnum) : jsnum :=
  match x, y with
  | NaN, _ | _, NaN => NaN
  | Fin a, Fin b =>
      if Req_dec_T b 0 then inf_signed true a else overflow (a / b)
  | Fin _, PInf | Fin _, NInf => Fin 0
  | PInf, Fin b => if Rlt_dec b 0 then NInf else PInf
  | NInf, Fin b => if Rlt_dec b 0 then PInf else NInf
  | _, _ => NaN
  end.

(** [Math.cos] *)
Definition Math_cos (x : jsnum) : jsnum :=
  match x with
  | Fin a => Fin (cos a)
  | _ => NaN
  end.

(** [Math.PI] *)
Definition Math_PI : jsnum := Fin PI.

Definition is_nan (x : jsnum) : bool :=
  match x with NaN => true | _ => false end.

(** [Math.min(...xs)]: [NaN] as soon as one argument is [NaN], otherwise the
    least argument, [+Infinity] for no argument. *)
Definition Math_min (xs : list jsnum) : jsnum :=
  if existsb is_nan xs then NaN
  else fold_left (fun lowest x => if lt x lowest then x else lowest) xs PInf.

(** [Math.max(...xs)]: [NaN] as soon as one argument is [NaN], otherwise the
    greatest argument, [-Infinity] for no argument. *)
Definition Math_max (xs : list jsnum) : jsnum :=
  if existsb is_nan xs then NaN
  else fold_left (fun highest x => if lt highest x then x else highest) xs NInf.

(** Truthiness of a number: [NaN] and zero are falsy. *)
Definition truthy (x : jsnum) : bool :=
  match x with
  | NaN => false
  | Fin a => if Req_dec_T a 0 then false else true
  | _ => true
  end.

(** [x || y] when [x] is a number. *)
Definition or_else (x y : jsnum) : jsnum := if truthy x then x else y.

End JS.

(** ** JavaScript values, property access and conversion to a number *)

Inductive jsval : Type :=
| VUndefined
| VNull
| VBool (b : bool)
| VNum (n : jsnum)
| VStr (s : string)
| VObj (fields : list (string * jsval)).

(** Results of code that can throw. *)
Inductive exn : Type := TypeError.

Inductive result (A : Type) : Type :=
| Ok (a : A)
| Throw (e : exn).
Arguments Ok {A} a.
Arguments Throw {A} e.

Definition bind {A B : Type} (m : result A) (k : A -> result B) : result B :=
  match m with
  | Ok a => k a
  | Throw e => Throw e
  end.

Notation "x <- m ;; k" := (bind m (fun x => k))
  (at level 61, m at next level, right associativity).

(** [xs.map(f)] for a callback that can throw: the first throw ends the
    call. *)
Fixpoint mapM {A B : Type} (f : A -> result B) (xs : list A) : result (list B) :=
  match xs with
  | [] => Ok []
  | x :: rest =>
      y <- f x ;;
      ys <- mapM f rest ;;
      Ok (y :: ys)
  end.

Module Str.

(** [StrWhiteSpaceChar], by the bytes of its UTF-8 encoding.

    One byte: TAB, LF, VT, FF, CR and the space. *)
Definition is_ws (c : ascii) : bool :=
  let n := nat_of_ascii c in
  (((9 <=? n) && (n <=? 13)) || (n =? 32))%nat.

(** Two bytes: U+00A0, the no-break space. *)
Definition is_ws2 (c1 c2 : ascii) : bool :=
  ((nat_of_ascii c1 =? 194) && (nat_of_ascii c2 =? 160))%nat.

(** Three bytes: U+1680, U+2000 to U+200A, U+2028, U+2029, U+202F, U+205F,
    U+3000 and U+FEFF. *)
Definition is_ws3 (c1 c2 c3 : ascii) : bool :=
  let a := nat_of_ascii c1 in
  let b := nat_of_ascii c2 in
  let c := nat_of_ascii c3 in
  (((a =? 225) && (b =? 154) && (c =? 128))
   || ((a =? 226) && (b =? 128)
       && (((128 <=? c) && (c <=? 138)) || (c =? 168) || (c =? 169) || (c =? 175)))
   || ((a =? 226) && (b =? 129) && (c =? 159))
   || ((a =? 227) && (b =? 128) && (c =? 128))
   || ((a =? 239) && (b =? 187) && (c =? 191)))%nat.

(** Drop the white space at the head of [l]. *)
Fixpoint drop_ws (l : list ascii) : list ascii :=
  match l with
  | c1 :: r1 =>
      if is_ws c1 then drop_ws r1
      else
        match r1 with
        | c2 :: r2 =>
            if is_ws2 c1 c2 then drop_ws r2
            else
              match r2 with
              | c3 :: r3 => if is_ws3 c1 c2 c3 then drop_ws r3 else l
              | [] => l
              end
        | [] => l
        end
  | [] => []
  end.

(** The same on a reversed list, whose characters come last byte first. *)
Fixpoint drop_ws_end (l : list ascii) : list ascii :=
  match l with
  | c1 :: r1 =>
      if is_ws c1 then drop_ws_end r1
      else
        match r1 with
        | c2 :: r2 =>
            if is_ws2 c2 c1 then drop_ws_end r2
            else
              match r2 with
              | c3 :: r3 => if is_ws3 c3 c2 c1 then drop_ws_end r3 else l
              | [] => l
              end
        | [] => l
        end
  | [] => []
  end.

Definition trim (l : list ascii) : list ascii :=
  rev (drop_ws_end (rev (drop_ws l))).

Definition digit_of (base : nat) (c : ascii) : option Z :=
  let n := nat_of_ascii c in
  let v :=
    if ((48 <=? n) && (n <=? 57))%nat then Some (n - 48)%nat
    else if ((97 <=? n) && (n <=? 102))%nat then Some (n - 87)%nat
    else if ((65 <=? n) && (n <=? 70))%nat then Some (n - 55)%nat
    else None in
  match v with
  | Some d => if (d <? base)%nat then Some (Z.of_nat d) else None
  | None => None
  end.

(** The longest prefix of digits in [base], and what follows it. *)
Fixpoint span_digits (base : nat) (l : list ascii) : list Z * list ascii :=
  match l with
  | c :: rest =>
      match digit_of base c with
      | Some d => let '(ds, tl) := span_digits base rest in (d :: ds, tl)
      | None => ([], l)
      end
  | [] => ([], [])
  end.

Definition digits_value (base : nat) (ds : list Z) : Z :=
  fold_left (fun acc d => acc * Z.of_nat base + d)%Z ds 0%Z.

Definition is_nil {A : Type} (l : list A) : bool :=
  match l with [] => true | _ => false end.

Definition is_char (c : ascii) (n : nat) : bool := (nat_of_ascii c =? n)%nat.

(** [ExponentPart], optional: [e] or [E], an optional sign, digits. *)
Definition parse_exponent (l : list ascii) : option Z :=
  match l with
  | [] => Some 0%Z
  | c :: rest =>
      if is_char c 101 || is_char c 69 then
        let '(negative, rest') :=
          match rest with
          | s :: tl =>
              if is_char s 43 then (false, tl)
              else if is_char s 45 then (true, tl)
              else (false, rest)
          | [] => (false, rest)
          end in
        let '(ds, tl) := span_digits 10 rest' in
        if is_nil ds || negb (is_nil tl) then None
        else
          let v := digits_value 10 ds in
          Some (if negative then (- v)%Z else v)
      else None
  end.

(** [StrUnsignedDecimalLiteral] without [Infinity]: the digits as an
    integer and the power of ten that scales it. *)
Definition parse_unsigned_decimal (l : list ascii) : option (Z * Z) :=
  let '(ip, r1) := span_digits 10 l in
  let '(fp, r2, ok) :=
    match r1 with
    | c :: rest =>
        if is_char c 46 then
          let '(fp, r2) := span_digits 10 rest in
          (fp, r2, negb (is_nil ip) || negb (is_nil fp))
        else ([], r1, negb (is_nil ip))
    | [] => ([], r1, negb (is_nil ip))
    end in
  if ok then
    match parse_exponent r2 with
    | Some e => Some (digits_value 10 (ip ++ fp)%list, (e - Z.of_nat (List.length fp))%Z)
    | None => None
    end
  else None.

(** The number [m * 10^e] for [0 <= m], infinite from [JS.huge] on. *)
Definition scale10 (m e : Z) : jsnum :=
  if (0 <=? e)%Z then
    if (2 ^ 1024 - 2 ^ 970 <=? m * 10 ^ e)%Z then PInf
    else Fin (IZR (m * 10 ^ e))
  else
    if ((2 ^ 1024 - 2 ^ 970) * 10 ^ (- e) <=? m)%Z then PInf
    else Fin (IZR m / IZR (10 ^ (- e))).

Definition Infinity_lit : list ascii := list_ascii_of_string "Infinity".

Definition list_ascii_eqb (a b : list ascii) : bool :=
  String.eqb (string_of_list_ascii a) (string_of_list_ascii b).

Definition parse_unsigned (l : list ascii) : jsnum :=
  if list_ascii_eqb l Infinity_lit then PInf
  else
    match parse_unsigned_decimal l with
    | Some (m, e) => scale10 m e
    | None => NaN
    end.

(** [NonDecimalIntegerLiteral]: [0x], [0o] or [0b] and at least one digit. *)
Definition parse_non_decimal (l : list ascii) : option jsnum :=
  match l with
  | z :: p :: rest =>
      if is_char z 48 then
        let base :=
          if is_char p 120 || is_char p 88 then Some 16%nat
          else if is_char p 111 || is_char p 79 then Some 8%nat
          else if is_char p 98 || is_char p 66 then Some 2%nat
          else None in
        match base with
        | Some b =>
            let '(ds, tl) := span_digits b rest in
            if is_nil ds || negb (is_nil tl) then Some NaN
            else Some (scale10 (digits_value b ds) 0)
        | None => None
        end
      else None
  | _ => None
  end.

(** [StringToNumber]: surrounding white space is dropped, the empty string
    is [0], and anything that is not a numeric literal is [NaN]. *)
Definition to_number (s : string) : jsnum :=
  let l := trim (list_ascii_of_string s) in
  match l with
  | [] => Fin 0
  | c :: rest =>
      match parse_non_decimal l with
      | Some v => v
      | None =>
          if is_char c 43 then parse_unsigned rest
          else if is_char c 45 then JS.neg (parse_unsigned rest)
          else parse_unsigned l
      end
  end.

Definition of_Z (z : Z) : string :=
  if (z <? 0)%Z then "-" ++ NilZero.string_of_uint (N.to_uint (Z.to_N (- z)))
  else NilZero.string_of_uint (N.to_uint (Z.to_N z)).

(** The digits of [n / 1000] with three decimals, as [toFixed(3)] lays them
    out: padded on the left with zeros to four digits, then a point before
    the last three. *)
Definition fixed3_digits (n : Z) : string :=
  let m := of_Z n in
  let k := String.length m in
  let m := if (k <=? 3)%nat then string_of_list_ascii (repeat "0"%char (4 - k)) ++ m
           else m in
  let k := String.length m in
  substring 0 (k - 3) m ++ "." ++ substring (k - 3) 3 m.

End Str.

Module Val.

(** The number that [ToNumber] gives for [v], when it returns: see
    [ToNumber] below. *)
Definition Number (v : jsval) : jsnum :=
  match v with
  | VUndefined => NaN
  | VNull => Fin 0
  | VBool true => Fin 1
  | VBool false => Fin 0
  | VNum n => n
  | VStr s => Str.to_number s
  | VObj _ => NaN
  end.

Fixpoint lookup (fields : list (string * jsval)) (key : string) : jsval :=
  match fields with
  | [] => VUndefined
  | (k, v) :: rest => if String.eqb k key then v else lookup rest key
  end.

(** [fields] has an own property [key]. *)
Fixpoint has_own (fields : list (string * jsval)) (key : string) : bool :=
  match fields with
  | [] => false
  | (k, _) :: rest => String.eqb k key || has_own rest key
  end.

(** [ToPrimitive] throws on [v]: [v] is an object with an own property
    [toString].  [OrdinaryToPrimitive] tries [valueOf] and [toString], in
    this order for a number and in the other for a string.  An own property
    of either name holds a value that cannot be called and is passed over;
    the built-in [valueOf] returns the object itself, which is no primitive;
    the built-in [toString] returns a string.  So the conversion fails, with
    a [TypeError], exactly when the built-in [toString] is hidden. *)
Definition throws (v : jsval) : bool :=
  match v with
  | VObj fields => has_own fields "toString"
  | _ => false
  end.

(** [Number(v)], that is [ToNumber]. *)
Definition ToNumber (v : jsval) : result jsnum :=
  if throws v then Throw TypeError else Ok (Number v).

(** [d[key]] and [d.key]: a [TypeError] on [null] and [undefined]. *)
Definition get (d : jsval) (key : string) : result jsval :=
  match d with
  | VUndefined | VNull => Throw TypeError
  | VObj fields => Ok (lookup fields key)
  | _ => Ok VUndefined
  end.

(** [d?.[key]]: [undefined] on [null] and [undefined]. *)
Definition get_opt (d : jsval) (key : string) : jsval :=
  match d with
  | VObj fields => lookup fields key
  | _ => VUndefined
  end.

(** [v ?? w] *)
Definition nullish_or (v w : jsval) : jsval :=
  match v with
  | VUndefined | VNull => w
  | _ => v
  end.

(** [s || t] when [s] is a string: the empty string is falsy. *)
Definition str_or (s t : string) : string :=
  if String.eqb s "" then t else s.

End Val.

(** ** [Number.prototype.toFixed(3)]

    For a magnitude of [1e21] or more [toFixed] returns [ToString(x)], whose
    digits are those of the binary64 value; that conversion is a parameter
    of the development. *)

Section ToFixed.

Variable Number_toString : R -> string.

(** [x.toFixed(3)]: the sign, then the integer nearest to [|x| * 1000], the
    larger one on a tie, laid out by [Str.fixed3_digits]. *)
Definition toFixed3 (x : jsnum) : string :=
  match x with
  | NaN => "NaN"
  | PInf => "Infinity"
  | NInf => "-Infinity"
  | Fin r =>
      let s := if Rlt_dec r 0 then "-" else "" in
      let x := if Rlt_dec r 0 then - r else r in
      if Rle_dec (IZR (10 ^ 21)) x then s ++ Number_toString x
      else s ++ Str.fixed3_digits (Int_part (x * 1000 + / 2))
  end.

(** The template literal of the three [mapData]:
    [rgba(${BASE_RGB[0]}, ${BASE_RGB[1]}, ${BASE_RGB[2]}, ${a.toFixed(3)})]. *)
Definition rgba (base : list Z) (a : jsnum) : string :=
  "rgba(" ++ Str.of_Z (nth 0 base 0%Z) ++ ", " ++ Str.of_Z (nth 1 base 0%Z)
    ++ ", " ++ Str.of_Z (nth 2 base 0%Z) ++ ", " ++ toFixed3 a ++ ")".

End ToFixed.

(** ** The standalone script [02.矩形树图.js] *)

Module Script.

Definition BASE_RGB : list Z := [87; 129; 253]%Z.
Definition MIN_ALPHA : jsnum := Fin 0.5.
Definition MAX_ALPHA : jsnum := Fin 0.9.

Definition computeAlpha (scale min max : jsnum) : jsnum :=
  if JS.strict_eq max min then MAX_ALPHA
  else
    let lin := JS.div (JS.sub scale min) (JS.sub max min) in
    let t :=
      JS.sub (Fin 0.5)
        (JS.mul (Fin 0.5)
           (JS.Math_cos
              (JS.mul JS.Math_PI
                 (JS.Math_min [Fin 1; JS.Math_max [Fin 0; lin]])))) in
    JS.Math_min
      [MAX_ALPHA;
       JS.Math_max
         [MIN_ALPHA;
          JS.add MIN_ALPHA (JS.mul t (JS.sub MAX_ALPHA MIN_ALPHA))]].

Record ItemStyle : Type := { color : string }.

Record Item : Type := {
  name : jsval;
  value : jsval;
  fundname : jsval;
  scale : jsval;
  itemStyle : ItemStyle
}.

Definition rawData : list jsval :=
  [VObj [("fundname", VStr "新能源A"); ("scale", VNum (Fin 200))];
   VObj [("fundname", VStr "消费龙头"); ("scale", VNum (Fin 150))];
   VObj [("fundname", VStr "医药创新"); ("scale", VNum (Fin 100))];
   VObj [("fundname", VStr "中证500"); ("scale", VNum (Fin 50))];
   VObj [("fundname", VStr "港股科技"); ("scale", VNum (Fin 65))]].

Section MapData.

Variable Number_toString : R -> string.

(** The script hands [d.scale] on as it is.  [Math.min], [Math.max] and the
    subtraction [scale - min] in [computeAlpha], the only place that reads
    [scale] there, each convert it with [ToNumber].  [Math.min] converts
    every argument before [Math.max] converts them again, to the same
    numbers; the subtraction is reached only when [max !== min], after
    these conversions have returned. *)
Definition mapData (src : list jsval) : result (list Item) :=
  scales <- mapM (fun d => Val.get d "scale") src ;;
  numbers <- mapM Val.ToNumber scales ;;
  let min := JS.Math_min numbers in
  let max := JS.Math_max numbers in
  mapM (fun d =>
          d_scale <- Val.get d "scale" ;;
          scale <- Val.ToNumber d_scale ;;
          let a := computeAlpha scale min max in
          d_fundname <- Val.get d "fundname" ;;
          Ok {| name := d_fundname;
                value := d_scale;
                fundname := d_fundname;
                scale := d_scale;
                itemStyle := {| color := rgba Number_toString BASE_RGB a |} |})
       src.

Definition treemapData : result (list Item) := mapData rawData.

End MapData.

(** The value of the local [a] for each record of [src], in order. *)
Definition alphas (src : list jsval) : result (list jsnum) :=
  scales <- mapM (fun d => Val.get d "scale") src ;;
  numbers <- mapM Val.ToNumber scales ;;
  let min := JS.Math_min numbers in
  let max := JS.Math_max numbers in
  mapM (fun d =>
          d_scale <- Val.get d "scale" ;;
          scale <- Val.ToNumber d_scale ;;
          Ok (computeAlpha scale min max))
       src.

End Script.

(** ** The first Vue component *)

Module TreeMapA.

Record Props : Type := {
  fontSize : jsnum;
  fundNameKey : string;
  scaleKey : string
}.

Definition BASE_RGB : list Z := [87; 129; 253]%Z.
Definition MIN_ALPHA : jsnum := Fin 0.5.
Definition MAX_ALPHA : jsnum := Fin 0.9.

Definition computeAlpha (scale min max : jsnum) : jsnum :=
  if JS.strict_eq max min then MAX_ALPHA
  else
    let lin := JS.div (JS.sub scale min) (JS.sub max min) in
    let t :=
      JS.sub (Fin 0.5)
        (JS.mul (Fin 0.5)
           (JS.Math_cos
              (JS.mul JS.Math_PI
                 (JS.Math_min [Fin 1; JS.Math_max [Fin 0; lin]])))) in
    JS.Math_min
      [MAX_ALPHA;
       JS.Math_max
         [MIN_ALPHA;
          JS.add MIN_ALPHA (JS.mul t (JS.sub MAX_ALPHA MIN_ALPHA))]].

Record ItemStyle : Type := { color : string }.

Record Label : Type := {
  show : bool;
  label_fontSize : jsnum;
  overflow : string
}.

Record Item : Type := {
  name : jsval;
  value : jsnum;
  fund_name : jsval;
  scale : jsnum;
  raw : jsval;
  itemStyle : ItemStyle;
  label : Label
}.

Section MapData.

Variable Number_toString : R -> string.
Variable props : Props.

(** [src] is [None] for a [null] or [undefined] argument.  [Number] throws
    on a field that cannot be converted, in the first [map] already. *)
Definition mapData (src : option (list jsval)) : result (list Item) :=
  match src with
  | None => Ok []
  | Some src =>
      if (List.length src =? 0)%nat then Ok []
      else
        let nameKey := Val.str_or (fundNameKey props) "fund_name" in
        let scaleKey := Val.str_or (scaleKey props) "scale" in
        scales <-
          mapM (fun d =>
                  n <- Val.ToNumber (Val.get_opt d scaleKey) ;;
                  Ok (JS.or_else n (Fin 0)))
               src ;;
        let min := JS.Math_min scales in
        let max := JS.Math_max scales in
        mapM (fun d =>
                n <- Val.ToNumber (Val.get_opt d scaleKey) ;;
                let scaleVal := JS.or_else n (Fin 0) in
                let nameVal := Val.nullish_or (Val.get_opt d nameKey) (VStr "") in
                let a := computeAlpha scaleVal min max in
                Ok {| name := nameVal;
                      value := scaleVal;
                      fund_name := nameVal;
                      scale := scaleVal;
                      raw := d;
                      itemStyle := {| color := rgba Number_toString BASE_RGB a |};
                      label := {| show := true;
                                  label_fontSize := fontSize props;
                                  overflow := "truncate" |} |})
             src
  end.

(** What [d?.[scaleKey]] reads from a record [d]. *)
Definition scaleField (d : jsval) : jsval :=
  Val.get_opt d (Val.str_or (scaleKey props) "scale").

(** The values of the locals [scaleVal] and [nameVal] of the callback, for a
    record [d] whose scale field [Number] converts. *)
Definition scaleVal (d : jsval) : jsnum :=
  JS.or_else (Val.Number (scaleField d)) (Fin 0).

Definition nameVal (d : jsval) : jsval :=
  let nameKey := Val.str_or (fundNameKey props) "fund_name" in
  Val.nullish_or (Val.get_opt d nameKey) (VStr "").

(** The values of the list [scales] of [mapData]. *)
Definition scales (src : list jsval) : list jsnum :=
  let scaleKey := Val.str_or (scaleKey props) "scale" in
  map (fun d => JS.or_else (Val.Number (Val.get_opt d scaleKey)) (Fin 0)) src.

(** The value of the local [a] for each record of [src], in order, in a
    call of [mapData] that returns. *)
Definition alphas (src : list jsval) : list jsnum :=
  let min := JS.Math_min (scales src) in
  let max := JS.Math_max (scales src) in
  map (fun s => computeAlpha s min max) (scales src).

End MapData.

End TreeMapA.

(** ** The second Vue component, with the [format] property *)

Module TreeMapB.

Record Props : Type := {
  fontSize : jsnum;
  fundNameKey : string;
  scaleKey : string;
  format : string
}.

Section FormatScale.

(** [formatBig], [digitToPercent] and [formatCurrency] are imported from
    [@/common/utils/commonUtils], which is not part of the sources. *)
Variable formatBig digitToPercent formatCurrency : jsval -> jsval.
Variable props : Props.

Definition is_empty_str (v : jsval) : bool :=
  match v with
  | VStr s => String.eqb s ""
  | _ => false
  end.

Definition formatScale (v : jsval) : jsval :=
  match v with
  | VUndefined | VNull => VStr ""
  | _ =>
      if is_empty_str v then VStr ""
      else if String.eqb (format props) "large" then formatBig v
      else if String.eqb (format props) "percent" then digitToPercent v
      else if String.eqb (format props) "currency" then formatCurrency v
      else v
  end.

End FormatScale.

Definition BASE_RGB : list Z := [87; 129; 253]%Z.
Definition MIN_ALPHA : jsnum := Fin 0.5.
Definition MAX_ALPHA : jsnum := Fin 0.9.

Definition computeAlpha (scale min max : jsnum) : jsnum :=
  if JS.strict_eq max min then MAX_ALPHA
  else
    let lin := JS.div (JS.sub scale min) (JS.sub max min) in
    let t :=
      JS.sub (Fin 0.5)
        (JS.mul (Fin 0.5)
           (JS.Math_cos
              (JS.mul JS.Math_PI
                 (JS.Math_min [Fin 1; JS.Math_max [Fin 0; lin]])))) in
    JS.Math_min
      [MAX_ALPHA;
       JS.Math_max
         [MIN_ALPHA;
          JS.add MIN_ALPHA (JS.mul t (JS.sub MAX_ALPHA MIN_ALPHA))]].

Record ItemStyle : Type := { color : string }.

Record Label : Type := {
  show : bool;
  label_fontSize : jsnum;
  overflow : string
}.

Record Item : Type := {
  name : jsval;
  value : jsnum;
  fund_name : jsval;
  scale : jsnum;
  raw : jsval;
  itemStyle : ItemStyle;
  label : Label
}.

Section MapData.

Variable Number_toString : R -> string.
Variable props : Props.

(** [src] is [None] for a [null] or [undefined] argument.  [Number] throws
    on a field that cannot be converted, in the first [map] already. *)
Definition mapData (src : option (list jsval)) : result (list Item) :=
  match src with
  | None => Ok []
  | Some src =>
      if (List.length src =? 0)%nat then Ok []
      else
        let nameKey := Val.str_or (fundNameKey props) "fund_name" in
        let scaleKey := Val.str_or (scaleKey props) "scale" in
        scales <-
          mapM (fun d =>
                  n <- Val.ToNumber (Val.get_opt d scaleKey) ;;
                  Ok (JS.or_else n (Fin 0)))
               src ;;
        let min := JS.Math_min scales in
        let max := JS.Math_max scales in
        mapM (fun d =>
                n <- Val.ToNumber (Val.get_opt d scaleKey) ;;
                let scaleVal := JS.or_else n (Fin 0) in
                let nameVal := Val.nullish_or (Val.get_opt d nameKey) (VStr "") in
                let a := computeAlpha scaleVal min max in
                Ok {| name := nameVal;
                      value := scaleVal;
                      fund_name := nameVal;
                      scale := scaleVal;
                      raw := d;
                      itemStyle := {| color := rgba Number_toString BASE_RGB a |};
                      label := {| show := true;
                                  label_fontSize := fontSize props;
                                  overflow := "truncate" |} |})
             src
  end.

(** What [d?.[scaleKey]] reads from a record [d]. *)
Definition scaleField (d : jsval) : jsval :=
  Val.get_opt d (Val.str_or (scaleKey props) "scale").

(** The values of the locals [scaleVal] and [nameVal] of the callback, for a
    record [d] whose scale field [Number] converts. *)
Definition scaleVal (d : jsval) : jsnum :=
  JS.or_else (Val.Number (scaleField d)) (Fin 0).

Definition nameVal (d : jsval) : jsval :=
  let nameKey := Val.str_or (fundNameKey props) "fund_name" in
  Val.nullish_or (Val.get_opt d nameKey) (VStr "").

(** The values of the list [scales] of [mapData]. *)
Definition scales (src : list jsval) : list jsnum :=
  let scaleKey := Val.str_or (scaleKey props) "scale" in
  map (fun d => JS.or_else (Val.Number (Val.get_opt d scaleKey)) (Fin 0)) src.

(** The value of the local [a] for each record of [src], in order, in a
    call of [mapData] that returns. *)
Definition alphas (src : list jsval) : list jsnum :=
  let min := JS.Math_min (scales src) in
  let max := JS.Math_max (scales src) in
  map (fun s => computeAlpha s min max) (scales src).

End MapData.

End TreeMapB.

(** * The display code: sizes, tooltips, labels and the update hook

    The formatters read [info.data], the item that [mapData] built, or
    [undefined]; [None] stands for a missing item.  A template literal
    converts each value with [ToString], from left to right. *)

Module Text.

(** The double quote and the line feed, as strings. *)
Definition dq : string := String (ascii_of_nat 34) EmptyString.
Definition nl : string := String (ascii_of_nat 10) EmptyString.

(** Truthiness of a value. *)
Definition truthy (v : jsval) : bool :=
  match v with
  | VUndefined | VNull => false
  | VBool b => b
  | VNum n => JS.truthy n
  | VStr s => negb (String.eqb s "")
  | VObj _ => true
  end.

(** [v || w] *)
Definition or_val (v w : jsval) : jsval := if truthy v then v else w.

Section ToString.

(** [Number::toString] on the positive numbers that are not integers up to
    [2^53]; their digits are those of the binary64 value. *)
Variable Number_toString : R -> string.

(** [ToString] of a number.  An integer of magnitude up to [2^53] prints as
    its decimal digits. *)
Definition of_number (n : jsnum) : string :=
  match n with
  | NaN => "NaN"
  | PInf => "Infinity"
  | NInf => "-Infinity"
  | Fin r =>
      if Req_dec_T r 0 then "0"
      else
        let s := if Rlt_dec r 0 then "-" else "" in
        let x := if Rlt_dec r 0 then - r else r in
        if Req_dec_T x (IZR (Int_part x)) then
          if Rle_dec x (IZR (2 ^ 53)) then s ++ Str.of_Z (Int_part x)
          else s ++ Number_toString x
        else s ++ Number_toString x
  end.

(** The string that [ToString] gives for [v], when it returns. *)
Definition to_string (v : jsval) : string :=
  match v with
  | VUndefined => "undefined"
  | VNull => "null"
  | VBool true => "true"
  | VBool false => "false"
  | VNum n => of_number n
  | VStr s => s
  | VObj _ => "[object Object]"
  end.

(** [ToString], as a template literal applies it: a [TypeError] on an
    object that hides the built-in [toString]. *)
Definition ToString (v : jsval) : result string :=
  if Val.throws v then Throw TypeError else Ok (to_string v).

End ToString.

End Text.

(** ** The standalone script: tooltip and [window.updateTreemap] *)

Module ScriptView.

(** A call on [chart]: [chart.setOption({ series: [{ data }] })]. *)
Inductive Call : Type :=
| setOption (data : list Script.Item).

Section View.

Variable Number_toString : R -> string.

(** [option.tooltip.formatter].  Reading [data.fundname] throws when
    [info.data] is missing. *)
Definition formatter (data : option Script.Item) : result string :=
  match data with
  | None => Throw TypeError
  | Some data =>
      fundname <- Text.ToString Number_toString (Script.fundname data) ;;
      scale <- Text.ToString Number_toString (Script.scale data) ;;
      Ok (Text.nl ++ "  <div style=" ++ Text.dq
            ++ "font-weight:600;margin-bottom:4px;" ++ Text.dq ++ ">"
            ++ fundname
            ++ "</div>" ++ Text.nl
            ++ "  规模：" ++ scale
            ++ Text.nl ++ "  ")
  end.

(** [window.updateTreemap]: the calls it makes on [chart], and the error
    it ends with, if any.  [mapData] runs before [setOption] is called. *)
Definition updateTreemap (nextRawData : list jsval) : list Call * option exn :=
  match Script.mapData Number_toString nextRawData with
  | Throw e => ([], Some e)
  | Ok nextData => ([setOption nextData], None)
  end.

End View.

End ScriptView.

(** ** The first Vue component: sizes and tooltip *)

Module TreeMapAView.

Record WrapperStyle : Type := { width : jsval; height : jsval }.

Section View.

Variable Number_toString : R -> string.
Variable props : TreeMapA.Props.

Definition normalizeSize (v : jsval) : jsval :=
  match v with
  | VNum n => VStr (Text.of_number Number_toString n ++ "px")
  | _ => Text.or_val v (VStr "")
  end.

(** [wrapperStyle] for the properties [width] and [height]; the watcher of
    the two assigns the same. *)
Definition wrapperStyle (width height : jsval) : WrapperStyle :=
  {| width := normalizeSize width; height := normalizeSize height |}.

(** The fields of [d = info.data || {}]. *)
Definition data_fund_name (data : option TreeMapA.Item) : jsval :=
  match data with
  | Some d => TreeMapA.fund_name d
  | None => VUndefined
  end.

Definition data_scale (data : option TreeMapA.Item) : jsval :=
  match data with
  | Some d => VNum (TreeMapA.scale d)
  | None => VUndefined
  end.

(** [option.tooltip.formatter] as [option] is created. *)
Definition formatter (data : option TreeMapA.Item) : result string :=
  fund_name <-
    Text.ToString Number_toString (Text.or_val (data_fund_name data) (VStr "")) ;;
  scale <-
    Text.ToString Number_toString (Text.or_val (data_scale data) (VStr "")) ;;
  Ok ("<div style=" ++ Text.dq ++ "font-weight:600;font-size:"
        ++ Text.of_number Number_toString (TreeMapA.fontSize props)
        ++ "px;margin-bottom:4px;" ++ Text.dq ++ ">"
        ++ fund_name
        ++ "</div>规模："
        ++ scale).

(** [option.tooltip.formatter] as the watcher of [fontSize] assigns it: two
    template literals joined by [+]. *)
Definition formatter_fontSize (data : option TreeMapA.Item) : result string :=
  let head :=
    "<div style=" ++ Text.dq ++ "font-weight:600;font-size:"
      ++ Text.of_number Number_toString (TreeMapA.fontSize props)
      ++ "px;margin-bottom:4px;" ++ Text.dq ++ ">" in
  fund_name <-
    Text.ToString Number_toString (Text.or_val (data_fund_name data) (VStr "")) ;;
  scale <-
    Text.ToString Number_toString (Text.or_val (data_scale data) (VStr "")) ;;
  Ok (head ++ (fund_name ++ "</div>规模：" ++ scale)).

End View.

End TreeMapAView.

(** ** The second Vue component: sizes, tooltip and label *)

Module TreeMapBView.

Record WrapperStyle : Type := { width : jsval; height : jsval }.

Section View.

Variable Number_toString : R -> string.
Variable formatBig digitToPercent formatCurrency : jsval -> jsval.
Variable props : TreeMapB.Props.

Definition normalizeSize (v : jsval) : jsval :=
  match v with
  | VNum n => VStr (Text.of_number Number_toString n ++ "px")
  | _ => Text.or_val v (VStr "")
  end.

Definition wrapperStyle (width height : jsval) : WrapperStyle :=
  {| width := normalizeSize width; height := normalizeSize height |}.

(** The fields of [d = info.data || {}]. *)
Definition data_fund_name (data : option TreeMapB.Item) : jsval :=
  match data with
  | Some d => TreeMapB.fund_name d
  | None => VUndefined
  end.

Definition data_name (data : option TreeMapB.Item) : jsval :=
  match data with
  | Some d => TreeMapB.name d
  | None => VUndefined
  end.

Definition data_scale (data : option TreeMapB.Item) : jsval :=
  match data with
  | Some d => VNum (TreeMapB.scale d)
  | None => VUndefined
  end.

(** [option.tooltip.formatter] as [option] is created. *)
Definition tooltip_formatter (data : option TreeMapB.Item) : result string :=
  let name :=
    Text.or_val (Text.or_val (data_fund_name data) (data_name data)) (VStr "") in
  name_text <- Text.ToString Number_toString name ;;
  scale_text <-
    Text.ToString Number_toString
      (TreeMapB.formatScale formatBig digitToPercent formatCurrency props
         (data_scale data)) ;;
  Ok (name_text ++ ": " ++ scale_text).

(** [option.tooltip.formatter] as the watcher of [fontSize] assigns it. *)
Definition tooltip_formatter_fontSize (data : option TreeMapB.Item) : result string :=
  let name :=
    Text.or_val (Text.or_val (data_fund_name data) (data_name data)) (VStr "") in
  name_text <- Text.ToString Number_toString name ;;
  scale_text <-
    Text.ToString Number_toString
      (TreeMapB.formatScale formatBig digitToPercent formatCurrency props
         (data_scale data)) ;;
  Ok (name_text ++ ": " ++ scale_text).

(** [option.tooltip.formatter] as the watcher of [format] assigns it. *)
Definition tooltip_formatter_format (data : option TreeMapB.Item) : result string :=
  let name :=
    Text.or_val (Text.or_val (data_fund_name data) (data_name data)) (VStr "") in
  name_text <- Text.ToString Number_toString name ;;
  scale_text <-
    Text.ToString Number_toString
      (TreeMapB.formatScale formatBig digitToPercent formatCurrency props
         (data_scale data)) ;;
  Ok (name_text ++ ": " ++ scale_text).

(** [option.series[0].label.formatter]: the name alone when there is no
    scale, otherwise the name and the scale through [formatBig]. *)
Definition label_formatter (data : option TreeMapB.Item) : result jsval :=
  let name :=
    Text.or_val (Text.or_val (data_fund_name data) (data_name data)) (VStr "") in
  let val := data_scale data in
  match val with
  | VUndefined | VNull => Ok name
  | _ =>
      if TreeMapB.is_empty_str val then Ok name
      else
        name_text <- Text.ToString Number_toString name ;;
        val_text <- Text.ToString Number_toString (formatBig val) ;;
        Ok (VStr (name_text ++ " (" ++ val_text ++ ")"))
  end.

End View.

End TreeMapBView.

(** * Definitions of the statements and of the proofs *)

(** ** Predicates of the specification *)

(** A number lies in the band [[0.5, 0.9]].  [NaN] and the infinities lie
    outside. *)
Definition in_band (a : jsnum) : Prop :=
  match a with
  | Fin r => 0.5 <= r <= 0.9
  | _ => False
  end.

Definition finite (a : jsnum) : Prop :=
  match a with Fin _ => True | _ => False end.

(** The numbers of [l] span a finite range: [l] is empty, or [max - min]
    over [l], as [mapData] computes them, is finite. *)
Definition finite_range (l : list jsnum) : Prop :=
  l = [] \/ finite (JS.sub (JS.Math_max l) (JS.Math_min l)).

(** [d] is neither [null] nor [undefined]: reading a property of it does not
    throw. *)
Definition readable (d : jsval) : Prop :=
  match d with
  | VUndefined | VNull => False
  | _ => True
  end.

(** [ToNumber] and [ToString] return on [v]: it is not an object that
    hides the built-in [toString]. *)
Definition convertible (v : jsval) : Prop := Val.throws v = false.



(** ** [computeAlpha] in closed form *)

(** The alpha reached from the clamped position [c]. *)
Definition ease (c : R) : R :=
  Rmin 0.9 (Rmax 0.5 (0.5 + (0.5 - 0.5 * cos (PI * c)) * (0.9 - 0.5))).

(** The clamped position of [lin], when [lin] is not [NaN]. *)
Definition clamp01 (lin : jsnum) : option R :=
  match lin with
  | NaN => None
  | PInf => Some 1
  | NInf => Some 0
  | Fin l => Some (Rmin 1 (Rmax 0 l))
  end.

Definition alpha_of_lin (lin : jsnum) : jsnum :=
  match clamp01 lin with
  | Some c => Fin (ease c)
  | None => NaN
  end.

(** The clamped linear position of [s] between finite [mn < mx]. *)
Definition position (mn mx : R) (s : jsnum) : R :=
  match s with
  | NInf => 0
  | PInf => 1
  | Fin r => Rmin 1 (Rmax 0 ((r - mn) / (mx - mn)))
  | NaN => 0
  end.

(** The steps of the folds in [Math.min] and [Math.max]. *)
Definition min_step (lowest x : jsnum) : jsnum :=
  if JS.lt x lowest then x else lowest.

Definition max_step (highest x : jsnum) : jsnum :=
  if JS.lt highest x then x else highest.

(** ** The script on records that can be read *)

(** The item that the callback of [Script.mapData] builds for a readable
    [d]. *)
Definition script_item (Number_toString : R -> string) (min max : jsnum)
    (d : jsval) : Script.Item :=
  {| Script.name := Val.get_opt d "fundname";
     Script.value := Val.get_opt d "scale";
     Script.fundname := Val.get_opt d "fundname";
     Script.scale := Val.get_opt d "scale";
     Script.itemStyle :=
       {| Script.color :=
            rgba Number_toString Script.BASE_RGB
              (Script.computeAlpha (Val.Number (Val.get_opt d "scale")) min max) |} |}.

(** The numbers that [Math.min] and [Math.max] see in the script. *)
Definition script_scales (src : list jsval) : list jsnum :=
  map (fun d => Val.Number (Val.get_opt d "scale")) src.

(** ** Properties of the components and sample inputs *)

(** The default properties of the two components. *)
Definition propsA : TreeMapA.Props :=
  {| TreeMapA.fontSize := Fin 12;
     TreeMapA.fundNameKey := "fund_name";
     TreeMapA.scaleKey := "scale" |}.

Definition propsB : TreeMapB.Props :=
  {| TreeMapB.fontSize := Fin 12;
     TreeMapB.fundNameKey := "name";
     TreeMapB.scaleKey := "scale";
     TreeMapB.format := "" |}.

(** [p] with its [format] replaced. *)
Definition with_format (p : TreeMapB.Props) (f : string) : TreeMapB.Props :=
  {| TreeMapB.fontSize := TreeMapB.fontSize p;
     TreeMapB.fundNameKey := TreeMapB.fundNameKey p;
     TreeMapB.scaleKey := TreeMapB.scaleKey p;
     TreeMapB.format := f |}.

(** A value for the conversion parameter of [toFixed3]; the alphas stay
    far below [1e21], where it is called. *)
Definition Number_toString_any : R -> string := fun _ => "".

(** The record [{name: name, scale: scale}]. *)
Definition record (name : string) (scale : jsval) : jsval :=
  VObj [("name", VStr name); ("scale", scale)].

(** The four records of the scenario of the specification. *)
Definition scenario : list jsval :=
  [record "A" (VNum (Fin 200)); record "B" (VNum (Fin 150));
   record "C" (VNum (Fin 100)); record "D" (VNum (Fin 50))].

(** The scenario of the specification with two equal scales. *)
Definition equal_pair : list jsval :=
  [record "X" (VNum (Fin 10)); record "Y" (VNum (Fin 10))].

(** The scenario of the specification with the scale field absent. *)
Definition unscaled : list jsval := [VObj [("name", VStr "Z")]].


(** An infinite scale next to a finite one. *)
Definition unbounded : list jsval :=
  [record "a" (VNum PInf); record "b" (VNum (Fin 1))].

(** [2^1023], a binary64 value; twice it overflows. *)
Definition big : R := IZR (2 ^ 1023).

(** Two finite scales whose difference overflows. *)
Definition overflowing : list jsval :=
  [record "a" (VNum (Fin big)); record "b" (VNum (Fin (- big)))].

(** ** Tactics *)

(** Case analysis on every [Rmax] of the goal, then on every [Rmin]. *)
Ltac split_min_max :=
  unfold Rmax;
  repeat match goal with |- context [Rle_dec ?a ?b] => destruct (Rle_dec a b) end;
  unfold Rmin;
  repeat match goal with |- context [Rle_dec ?a ?b] => destruct (Rle_dec a b) end.

(** Decide the comparisons of reals that evaluation leaves in the goal. *)
Ltac js_decide :=
  repeat match goal with
  | |- context [Rlt_dec ?a ?b] => destruct (Rlt_dec a b); try lra
  | |- context [Rle_dec ?a ?b] => destruct (Rle_dec a b); try lra
  | |- context [Req_dec_T ?a ?b] => destruct (Req_dec_T a b); try lra
  end.

(** Evaluate [Math.min] and [Math.max] over a list of given numbers. *)
Ltac js_fold :=
  cbv [JS.Math_min JS.Math_max JS.lt existsb JS.is_nan orb fold_left];
  js_decide.

(** ** Definitions of the further properties *)

Definition infinite (x : jsnum) : Prop := x = PInf \/ x = NInf.

(** The linear position [(scale - min) / (max - min)] is [NaN]: one of the
    differences is [NaN], or both are infinite. *)
Definition lin_undefined (scale min max : jsnum) : Prop :=
  JS.sub scale min = NaN \/ JS.sub max min = NaN \/
  (infinite (JS.sub scale min) /\ infinite (JS.sub max min)).

(** The alphas that [mapData] computes from its list of extracted scales;
    [TreeMapA.alphas], [TreeMapB.alphas] and [Script.alphas] apply it to
    their scales. *)
Definition alphas_of (l : list jsnum) : list jsnum :=
  map (fun s => Script.computeAlpha s (JS.Math_min l) (JS.Math_max l)) l.

(** [d] is [null] or [undefined]. *)
Definition nullish (d : jsval) : Prop := d = VNull \/ d = VUndefined.

(** The item that the callback of [TreeMapA.mapData] builds for [d] against
    given [min] and [max]. *)
Definition itemA (Number_toString : R -> string) (props : TreeMapA.Props)
    (min max : jsnum) (d : jsval) : TreeMapA.Item :=
  {| TreeMapA.name := TreeMapA.nameVal props d;
     TreeMapA.value := TreeMapA.scaleVal props d;
     TreeMapA.fund_name := TreeMapA.nameVal props d;
     TreeMapA.scale := TreeMapA.scaleVal props d;
     TreeMapA.raw := d;
     TreeMapA.itemStyle :=
       {| TreeMapA.color :=
            rgba Number_toString TreeMapA.BASE_RGB
              (TreeMapA.computeAlpha (TreeMapA.scaleVal props d) min max) |};
     TreeMapA.label :=
       {| TreeMapA.show := true;
          TreeMapA.label_fontSize := TreeMapA.fontSize props;
          TreeMapA.overflow := "truncate" |} |}.

(** The same for [TreeMapB.mapData]. *)
Definition itemB (Number_toString : R -> string) (props : TreeMapB.Props)
    (min max : jsnum) (d : jsval) : TreeMapB.Item :=
  {| TreeMapB.name := TreeMapB.nameVal props d;
     TreeMapB.value := TreeMapB.scaleVal props d;
     TreeMapB.fund_name := TreeMapB.nameVal props d;
     TreeMapB.scale := TreeMapB.scaleVal props d;
     TreeMapB.raw := d;
     TreeMapB.itemStyle :=
       {| TreeMapB.color :=
            rgba Number_toString TreeMapB.BASE_RGB
              (TreeMapB.computeAlpha (TreeMapB.scaleVal props d) min max) |};
     TreeMapB.label :=
       {| TreeMapB.show := true;
          TreeMapB.label_fontSize := TreeMapB.fontSize props;
          TreeMapB.overflow := "truncate" |} |}.

(** A record whose [scale] the script and the components read alike: it
    can be read, and its field [scale] converts to a number. *)
Definition plain_scale (d : jsval) : Prop :=
  readable d /\ JS.is_nan (Val.Number (Val.get_opt d "scale")) = false.

(** The colour text for an alpha of [n] thousandths. *)
Definition alpha_text (n : Z) : string :=
  "rgba(87, 129, 253, 0." ++ Str.of_Z n ++ ")".

(** [c] is one of the colour texts that [mapData] can write. *)
Definition colour_text (c : string) : Prop :=
  c = "rgba(87, 129, 253, NaN)" \/
  exists n, (500 <= n <= 900)%Z /\ c = alpha_text n.

(** [c] is the colour text of the alpha [a]: that of [NaN], or [a] rounded to
    thousandths. *)
Definition colour_of (a : jsnum) (c : string) : Prop :=
  (a = NaN /\ c = "rgba(87, 129, 253, NaN)") \/
  exists n r, a = Fin r /\ (500 <= n <= 900)%Z /\
              IZR n - / 2 <= r * 1000 < IZR n + / 2 /\ c = alpha_text n.

(** The thousandths from 500 to 900. *)
Definition band_thousandths : list Z := map Z.of_nat (seq 500 401).

(** The opening tag of the tooltip of the first component. *)
Definition tooltip_head (Number_toString : R -> string) (fontSize : jsnum) : string :=
  "<div style=" ++ Text.dq ++ "font-weight:600;font-size:"
    ++ Text.of_number Number_toString fontSize
    ++ "px;margin-bottom:4px;" ++ Text.dq ++ ">".

(** The text of [name || ''] and of [scale || ''] in a template literal. *)
Definition name_text (Number_toString : R -> string) (name : jsval) : string :=
  Text.to_string Number_toString (Text.or_val name (VStr "")).

Definition scale_text (Number_toString : R -> string) (scale : jsnum) : string :=
  if JS.truthy scale then Text.of_number Number_toString scale else "".


(** A record that the script can process: it can be read, and its field
    [scale] can be converted. *)
Definition processable (d : jsval) : Prop :=
  readable d /\ convertible (Val.get_opt d "scale").

(** The no-break space before the digits 1 and 2. *)
Definition nbsp_12 : string :=
  String (ascii_of_nat 194) (String (ascii_of_nat 160) "12").

(** A record whose scale is an object that hides the built-in [toString]. *)
Definition unconvertible : list jsval :=
  [VObj [("name", VStr "Z")];
   VObj [("name", VStr "a"); ("scale", VObj [("toString", VNum (Fin 1))])]].


(** A size as the properties [width] and [height] declare it: a string or
    a number. *)
Definition size_value (v : jsval) : Prop :=
  match v with
  | VStr _ | VNum _ => True
  | _ => False
  end.

(** [l] with [x] put in after its first [n] elements. *)
Definition put_in {A : Type} (n : nat) (x : A) (l : list A) : list A :=
  firstn n l ++ x :: skipn n l.

(** The scenario of the specification and a further record inside its
    range. *)
Definition inside_record : jsval := record "E" (VNum (Fin 120)).

(** * Properties *)

(** ** Comparisons and the two-argument uses of [Math.min] and [Math.max] *)

Lemma lt_Fin_true (a b : R) : a < b -> JS.lt (Fin a) (Fin b) = true.
Proof. intros H; simpl; destruct (Rlt_dec a b); [reflexivity | contradiction]. Qed.

Lemma le_Fin_iff (a b : R) : JS.le (Fin a) (Fin b) = true <-> a <= b.
Proof.
  simpl; destruct (Rle_dec a b); split; auto; discriminate.
Qed.

Lemma strict_eq_refl (x : jsnum) : JS.is_nan x = false -> JS.strict_eq x x = true.
Proof.
  destruct x; simpl; try reflexivity; try discriminate.
  intros _; destruct (Req_dec_T r r); [reflexivity | contradiction].
Qed.

Lemma Math_max_pair (a b : R) : JS.Math_max [Fin a; Fin b] = Fin (Rmax a b).
Proof.
  unfold JS.Math_max; simpl.
  unfold Rmax; destruct (Rlt_dec a b), (Rle_dec a b);
    try reflexivity; try lra.
  f_equal; lra.
Qed.

Lemma Math_min_pair (a b : R) : JS.Math_min [Fin a; Fin b] = Fin (Rmin a b).
Proof.
  unfold JS.Math_min; simpl.
  unfold Rmin; destruct (Rlt_dec b a), (Rle_dec a b);
    try reflexivity; lra.
Qed.

(** ** What [computeAlpha] computes *)

Lemma huge_large : 1000 < JS.huge.
Proof. unfold JS.huge. apply IZR_lt. reflexivity. Qed.

(** A result of small magnitude does not overflow. *)
Lemma overflow_small (r : R) : -1000 <= r <= 1000 -> JS.overflow r = Fin r.
Proof.
  intros H. pose proof huge_large. unfold JS.overflow.
  destruct (Rle_dec JS.huge r); [lra|].
  destruct (Rle_dec r (- JS.huge)); [lra | reflexivity].
Qed.

Lemma overflow_Fin (r : R) : - JS.huge < r < JS.huge -> JS.overflow r = Fin r.
Proof.
  intros H. unfold JS.overflow.
  destruct (Rle_dec JS.huge r); [lra|].
  destruct (Rle_dec r (- JS.huge)); [lra | reflexivity].
Qed.

(** Clamping to [[0, 1]] does not see an overflow. *)
Lemma clamp01_overflow (l : R) :
  clamp01 (JS.overflow l) = Some (Rmin 1 (Rmax 0 l)).
Proof.
  pose proof huge_large. unfold JS.overflow.
  destruct (Rle_dec JS.huge l); [|destruct (Rle_dec l (- JS.huge))];
    simpl; [| |reflexivity]; f_equal; split_min_max; lra.
Qed.

(** The part of [computeAlpha] after the clamp, from a position [c] of
    the unit interval. *)
Lemma computeAlpha_tail (c : R) :
  0 <= c <= 1 ->
  JS.Math_min
    [Fin 0.9;
     JS.Math_max
       [Fin 0.5;
        JS.add (Fin 0.5)
          (JS.mul
             (JS.sub (Fin 0.5)
                (JS.mul (Fin 0.5) (JS.Math_cos (JS.mul JS.Math_PI (Fin c)))))
             (JS.sub (Fin 0.9) (Fin 0.5)))]] = Fin (ease c).
Proof.
  intros Hc.
  pose proof (COS_bound (PI * c)) as [Hlo Hhi].
  pose proof PI_RGT_0 as Hpi0. pose proof PI_4 as Hpi4.
  unfold JS.Math_PI, JS.sub.
  repeat (cbn [JS.mul JS.neg JS.add JS.Math_cos];
          match goal with
          | |- context [JS.overflow ?r] =>
              rewrite (overflow_small r) by (try lra; nra)
          end).
  rewrite Math_max_pair, Math_min_pair. reflexivity.
Qed.

Lemma clamp01_spec (lin : jsnum) :
  JS.Math_min [Fin 1; JS.Math_max [Fin 0; lin]] =
  match clamp01 lin with
  | Some c => Fin c
  | None => NaN
  end.
Proof.
  destruct lin as [| | |l]; simpl clamp01.
  - reflexivity.
  - reflexivity.
  - replace (JS.Math_max [Fin 0; NInf]) with (Fin 0) by reflexivity.
    rewrite Math_min_pair. f_equal. split_min_max; lra.
  - now rewrite Math_max_pair, Math_min_pair.
Qed.

Lemma clamp01_unit (lin : jsnum) (c : R) : clamp01 lin = Some c -> 0 <= c <= 1.
Proof.
  destruct lin as [| | |l]; simpl; intros H; try discriminate;
    injection H as <-; try lra.
  split_min_max; lra.
Qed.

Lemma computeAlpha_unfold (scale min max : jsnum) :
  Script.computeAlpha scale min max =
  if JS.strict_eq max min then Fin 0.9
  else alpha_of_lin (JS.div (JS.sub scale min) (JS.sub max min)).
Proof.
  unfold Script.computeAlpha, Script.MAX_ALPHA, Script.MIN_ALPHA.
  destruct (JS.strict_eq max min); [reflexivity|].
  rewrite clamp01_spec. unfold alpha_of_lin.
  destruct (clamp01 (JS.div (JS.sub scale min) (JS.sub max min))) as [c|] eqn:E.
  - apply computeAlpha_tail. now apply (clamp01_unit _ _ E).
  - reflexivity.
Qed.

Lemma ease_band (c : R) : 0.5 <= ease c <= 0.9.
Proof.
  unfold ease; split_min_max; lra.
Qed.

Lemma ease_eq (c : R) : ease c = 0.7 - 0.2 * cos (PI * c).
Proof.
  pose proof (COS_bound (PI * c)) as [Hlo Hhi].
  unfold ease; split_min_max; lra.
Qed.

Lemma ease_mono (c1 c2 : R) : 0 <= c1 -> c1 <= c2 -> c2 <= 1 -> ease c1 <= ease c2.
Proof.
  intros H0 H12 H1. rewrite !ease_eq.
  pose proof PI_RGT_0 as Hpi.
  assert (cos (PI * c2) <= cos (PI * c1)).
  { apply cos_decr_1; nra. }
  lra.
Qed.

Lemma ease_0 : ease 0 = 0.5.
Proof. rewrite ease_eq, Rmult_0_r, cos_0. lra. Qed.

Lemma ease_1 : ease 1 = 0.9.
Proof. rewrite ease_eq, Rmult_1_r, cos_PI. lra. Qed.

Lemma cos_third : cos (PI * (1 / 3)) = 1 / 2.
Proof. replace (PI * (1 / 3)) with (PI / 3) by lra. apply cos_PI3. Qed.

Lemma cos_two_thirds : cos (PI * (2 / 3)) = - (1 / 2).
Proof.
  replace (PI * (2 / 3)) with (PI - PI / 3) by lra.
  rewrite cos_minus, cos_PI, sin_PI, cos_PI3. lra.
Qed.

Lemma ease_third : ease (1 / 3) = 0.6.
Proof. rewrite ease_eq, cos_third. lra. Qed.

Lemma ease_two_thirds : ease (2 / 3) = 0.8.
Proof. rewrite ease_eq, cos_two_thirds. lra. Qed.

Lemma clamp_unit (l : R) : 0 <= Rmin 1 (Rmax 0 l) <= 1.
Proof.
  split_min_max; lra.
Qed.

Lemma clamp_id (l : R) : 0 <= l <= 1 -> Rmin 1 (Rmax 0 l) = l.
Proof.
  intros H. split_min_max; lra.
Qed.

Lemma clamp_mono (l1 l2 : R) :
  l1 <= l2 -> Rmin 1 (Rmax 0 l1) <= Rmin 1 (Rmax 0 l2).
Proof.
  intros H. split_min_max; lra.
Qed.

Lemma alpha_of_lin_cases (lin : jsnum) :
  alpha_of_lin lin = NaN \/ in_band (alpha_of_lin lin).
Proof.
  unfold alpha_of_lin. destruct (clamp01 lin) as [c|]; [right | left; reflexivity].
  apply ease_band.
Qed.

(** The result of [computeAlpha] is [NaN] or lies in the band, whatever the
    arguments. *)
Lemma computeAlpha_nan_or_band (scale min max : jsnum) :
  Script.computeAlpha scale min max = NaN \/
  in_band (Script.computeAlpha scale min max).
Proof.
  rewrite computeAlpha_unfold.
  destruct (JS.strict_eq max min).
  - right; simpl; lra.
  - apply alpha_of_lin_cases.
Qed.

Lemma clamp_low (l : R) : l <= 0 -> Rmin 1 (Rmax 0 l) = 0.
Proof. intros H. split_min_max; lra. Qed.

Lemma clamp_high (l : R) : 1 <= l -> Rmin 1 (Rmax 0 l) = 1.
Proof. intros H. split_min_max; lra. Qed.

Lemma div_ge_1 (a d : R) : 0 < d -> d <= a -> 1 <= a / d.
Proof.
  intros Hd Ha. apply (Rmult_le_reg_r d); [exact Hd|].
  unfold Rdiv. rewrite Rmult_assoc, Rinv_l by lra. lra.
Qed.

Lemma div_le_0 (a d : R) : 0 < d -> a <= 0 -> a / d <= 0.
Proof.
  intros Hd Ha. apply (Rmult_le_reg_r d); [exact Hd|].
  unfold Rdiv. rewrite Rmult_assoc, Rinv_l by lra. lra.
Qed.

Lemma div_opp_opp (a d : R) : d <> 0 -> a / d = (- a) / (- d).
Proof. intros Hd. field. exact Hd. Qed.

(** The clamped position of [a / d] for a finite divisor [d], whether or
    not [a] has overflowed. *)
Lemma lin_overflow (a d : R) :
  d <> 0 -> - JS.huge < d < JS.huge ->
  clamp01 (JS.div (JS.overflow a) (Fin d)) = Some (Rmin 1 (Rmax 0 (a / d))).
Proof.
  intros Hd0 Hd. pose proof huge_large as Hh. unfold JS.overflow.
  destruct (Rle_dec JS.huge a) as [Hhi|Hhi];
    [|destruct (Rle_dec a (- JS.huge)) as [Hlo|Hlo]]; cbn [JS.div].
  - destruct (Rlt_dec d 0) as [Hneg|Hpos]; simpl; f_equal; symmetry.
    + apply clamp_low. rewrite (div_opp_opp a d Hd0). apply div_le_0; lra.
    + apply clamp_high. apply div_ge_1; lra.
  - destruct (Rlt_dec d 0) as [Hneg|Hpos]; simpl; f_equal; symmetry.
    + apply clamp_high. rewrite (div_opp_opp a d Hd0). apply div_ge_1; lra.
    + apply clamp_low. apply div_le_0; lra.
  - destruct (Req_dec_T d 0) as [E|_]; [contradiction|].
    apply clamp01_overflow.
Qed.

(** [max - min] is finite: both are finite and their difference has not
    overflowed. *)
Lemma finite_sub_inv (min max : jsnum) :
  finite (JS.sub max min) ->
  exists mn mx, min = Fin mn /\ max = Fin mx /\
                - JS.huge < mx - mn < JS.huge /\
                JS.sub max min = Fin (mx - mn).
Proof.
  destruct max as [| | |mx], min as [| | |mn]; simpl; try contradiction.
  unfold JS.overflow.
  destruct (Rle_dec JS.huge (mx + - mn)); [contradiction|].
  destruct (Rle_dec (mx + - mn) (- JS.huge)); [contradiction|].
  intros _. exists mn, mx. repeat split; try lra. 
Qed.

Lemma finite_sub_Fin (mn mx : R) :
  - JS.huge < mx - mn < JS.huge -> finite (JS.sub (Fin mx) (Fin mn)).
Proof.
  intros H. unfold JS.sub. simpl. rewrite overflow_Fin by lra. exact I.
Qed.

(** On finite arguments with [max <> min] and [max - min] finite the result
    is the eased, clamped linear position. *)
Lemma computeAlpha_Fin (s mn mx : R) :
  mx <> mn -> - JS.huge < mx - mn < JS.huge ->
  Script.computeAlpha (Fin s) (Fin mn) (Fin mx) =
  Fin (ease (Rmin 1 (Rmax 0 ((s - mn) / (mx - mn))))).
Proof.
  intros Hne Hrange. rewrite computeAlpha_unfold.
  simpl JS.strict_eq. destruct (Req_dec_T mx mn) as [E|_]; [contradiction|].
  unfold JS.sub. cbn [JS.neg JS.add].
  rewrite (overflow_Fin (mx + - mn)) by lra.
  unfold alpha_of_lin. rewrite lin_overflow by lra. reflexivity.
Qed.

(** The same with small arguments, as in the examples. *)
Lemma computeAlpha_small (s mn mx : R) :
  mx <> mn -> -1000 < mx - mn < 1000 ->
  Script.computeAlpha (Fin s) (Fin mn) (Fin mx) =
  Fin (ease (Rmin 1 (Rmax 0 ((s - mn) / (mx - mn))))).
Proof.
  intros Hne Hrange. pose proof huge_large. apply computeAlpha_Fin; lra.
Qed.

(** An infinite scale between finite [min <> max] lands on an end of the
    band. *)
Lemma computeAlpha_infinite (s : jsnum) (mn mx : R) :
  s = PInf \/ s = NInf ->
  mx <> mn -> - JS.huge < mx - mn < JS.huge ->
  Script.computeAlpha s (Fin mn) (Fin mx) =
  Fin (ease (if JS.lt (Fin mn) (Fin mx)
             then (if JS.lt s (Fin 0) then 0 else 1)
             else (if JS.lt s (Fin 0) then 1 else 0))).
Proof.
  intros Hs Hne Hrange. rewrite computeAlpha_unfold.
  simpl JS.strict_eq. destruct (Req_dec_T mx mn) as [E|_]; [contradiction|].
  assert (Hd : JS.sub (Fin mx) (Fin mn) = Fin (mx + - mn)).
  { unfold JS.sub. cbn [JS.neg JS.add]. apply overflow_Fin. lra. }
  rewrite Hd. simpl JS.lt.
  destruct Hs as [-> | ->]; simpl;
    destruct (Rlt_dec (mx + - mn) 0), (Rlt_dec mn mx); try lra; reflexivity.
Qed.

(** With a scale that is a number and a finite [max - min] the alpha is in
    the band. *)
Lemma computeAlpha_range_band (scale min max : jsnum) :
  JS.is_nan scale = false -> finite (JS.sub max min) ->
  in_band (Script.computeAlpha scale min max).
Proof.
  intros Hs Hrange.
  destruct (finite_sub_inv min max Hrange) as (mn & mx & -> & -> & Hb & _).
  destruct (Req_dec_T mx mn) as [->|Hne].
  - rewrite computeAlpha_unfold, (strict_eq_refl (Fin mn)) by reflexivity.
    simpl; lra.
  - destruct scale as [| | |s]; [discriminate | | |].
    + rewrite (computeAlpha_infinite PInf) by auto. apply ease_band.
    + rewrite (computeAlpha_infinite NInf) by auto. apply ease_band.
    + rewrite computeAlpha_Fin by assumption. apply ease_band.
Qed.

(** ** [Math.min] and [Math.max] over a list *)

Lemma fold_max_inv (l : list jsnum) :
  existsb JS.is_nan l = false ->
  forall acc m, JS.is_nan acc = false ->
    fold_left max_step l acc = Fin m ->
    (acc = NInf \/ exists a, acc = Fin a /\ a <= m) /\
    Forall (fun x => x = NInf \/ exists r, x = Fin r /\ r <= m) l.
Proof.
  induction l as [|x l IH]; intros Hnan acc m Hacc Hfold.
  - simpl in Hfold. subst acc.
    split; [right; exists m; split; [reflexivity|lra] | constructor].
  - simpl in Hnan. apply orb_false_iff in Hnan. destruct Hnan as [Hx Hl].
    simpl in Hfold.
    assert (Hstep : JS.is_nan (max_step acc x) = false)
      by (unfold max_step; destruct (JS.lt acc x); assumption).
    destruct (IH Hl _ m Hstep Hfold) as [Hacc' Hall].
    unfold max_step in Hacc'.
    destruct acc as [| | |a], x as [| | |r]; try discriminate; simpl in Hacc';
      try (destruct (Rlt_dec a r));
      repeat match goal with
             | H : _ \/ _ |- _ => destruct H
             | H : exists _, _ |- _ => destruct H as (? & ? & ?)
             end; try discriminate;
      repeat match goal with
             | H : Fin _ = Fin _ |- _ => injection H as H; subst
             end;
      (split; [|constructor; [|exact Hall]]);
      try (left; reflexivity);
      try (right; eexists; split; [reflexivity|lra]).
Qed.

Lemma fold_min_inv (l : list jsnum) :
  existsb JS.is_nan l = false ->
  forall acc m, JS.is_nan acc = false ->
    fold_left min_step l acc = Fin m ->
    (acc = PInf \/ exists a, acc = Fin a /\ m <= a) /\
    Forall (fun x => x = PInf \/ exists r, x = Fin r /\ m <= r) l.
Proof.
  induction l as [|x l IH]; intros Hnan acc m Hacc Hfold.
  - simpl in Hfold. subst acc.
    split; [right; exists m; split; [reflexivity|lra] | constructor].
  - simpl in Hnan. apply orb_false_iff in Hnan. destruct Hnan as [Hx Hl].
    simpl in Hfold.
    assert (Hstep : JS.is_nan (min_step acc x) = false)
      by (unfold min_step; destruct (JS.lt x acc); assumption).
    destruct (IH Hl _ m Hstep Hfold) as [Hacc' Hall].
    unfold min_step in Hacc'.
    destruct acc as [| | |a], x as [| | |r]; try discriminate; simpl in Hacc';
      try (destruct (Rlt_dec r a));
      repeat match goal with
             | H : _ \/ _ |- _ => destruct H
             | H : exists _, _ |- _ => destruct H as (? & ? & ?)
             end; try discriminate;
      repeat match goal with
             | H : Fin _ = Fin _ |- _ => injection H as H; subst
             end;
      (split; [|constructor; [|exact Hall]]);
      try (left; reflexivity);
      try (right; eexists; split; [reflexivity|lra]).
Qed.

(** When [max - min] of a list is finite, the list is not empty, all its
    numbers are finite and lie between [min] and [max], and the difference
    has not overflowed. *)
Lemma finite_range_inv (l : list jsnum) :
  finite (JS.sub (JS.Math_max l) (JS.Math_min l)) ->
  l <> [] /\ Forall finite l /\
  exists mn mx, JS.Math_min l = Fin mn /\ JS.Math_max l = Fin mx /\
                - JS.huge < mx - mn < JS.huge /\
                forall r, In (Fin r) l -> mn <= r <= mx.
Proof.
  intros Hfin.
  destruct (finite_sub_inv _ _ Hfin) as (mn & mx & Hmin & Hmax & Hrange & _).
  unfold JS.Math_min in Hmin. unfold JS.Math_max in Hmax.
  destruct (existsb JS.is_nan l) eqn:Hnan; [discriminate|].
  destruct (fold_min_inv l Hnan PInf mn eq_refl Hmin) as [_ Hlo].
  destruct (fold_max_inv l Hnan NInf mx eq_refl Hmax) as [_ Hhi].
  rewrite Forall_forall in Hlo, Hhi.
  assert (Hbounds : forall x, In x l -> exists r, x = Fin r /\ mn <= r <= mx).
  { intros x Hx.
    destruct (Hlo x Hx) as [->|(r & -> & Hr)];
      destruct (Hhi _ Hx) as [E|(r' & E & Hr')]; try discriminate.
    injection E as <-. exists r. split; [reflexivity | lra]. }
  split; [intros ->; discriminate|].
  split.
  - apply Forall_forall. intros x Hx.
    destruct (Hbounds x Hx) as (r & -> & _). exact I.
  - exists mn, mx. unfold JS.Math_min, JS.Math_max. rewrite Hnan.
    split; [exact Hmin|]. split; [exact Hmax|]. split; [exact Hrange|].
    intros r Hr. destruct (Hbounds (Fin r) Hr) as (r' & E & Hr').
    injection E as <-. exact Hr'.
Qed.

Lemma lt_irrefl (x : jsnum) : JS.lt x x = false.
Proof.
  destruct x; simpl; try reflexivity.
  destruct (Rlt_dec r r); [lra | reflexivity].
Qed.

Lemma const_no_nan (x : jsnum) (l : list jsnum) :
  JS.is_nan x = false -> (forall y, In y l -> y = x) ->
  existsb JS.is_nan l = false.
Proof.
  intros Hx. induction l as [|y l IH]; intros Hall; [reflexivity|].
  simpl. rewrite (Hall y (or_introl eq_refl)), Hx. simpl.
  apply IH. intros z Hz. apply Hall. now right.
Qed.

Lemma fold_min_const (x : jsnum) (l : list jsnum) :
  (forall y, In y l -> y = x) -> fold_left min_step l x = x.
Proof.
  induction l as [|y l IH]; intros Hall; [reflexivity|].
  simpl. rewrite (Hall y (or_introl eq_refl)).
  unfold min_step at 2. rewrite lt_irrefl.
  apply IH. intros z Hz. apply Hall. now right.
Qed.

Lemma fold_max_const (x : jsnum) (l : list jsnum) :
  (forall y, In y l -> y = x) -> fold_left max_step l x = x.
Proof.
  induction l as [|y l IH]; intros Hall; [reflexivity|].
  simpl. rewrite (Hall y (or_introl eq_refl)).
  unfold max_step at 2. rewrite lt_irrefl.
  apply IH. intros z Hz. apply Hall. now right.
Qed.

(** When every argument is the same number [x], not [NaN], [Math.min] and
    [Math.max] both return [x]. *)
Lemma Math_min_max_const (x : jsnum) (l : list jsnum) :
  JS.is_nan x = false -> l <> [] -> (forall y, In y l -> y = x) ->
  JS.Math_min l = x /\ JS.Math_max l = x.
Proof.
  intros Hx Hne Hall. unfold JS.Math_min, JS.Math_max.
  rewrite (const_no_nan x l Hx Hall).
  destruct l as [|y l]; [contradiction|].
  assert (y = x) as -> by (apply Hall; now left).
  assert (Hrest : forall z, In z l -> z = x) by (intros z Hz; apply Hall; now right).
  cbn [fold_left].
  replace (if JS.lt x PInf then x else PInf) with x
    by (destruct x; simpl; try reflexivity; discriminate).
  replace (if JS.lt NInf x then x else NInf) with x
    by (destruct x; simpl; try reflexivity; discriminate).
  split; [apply (fold_min_const x l Hrest) | apply (fold_max_const x l Hrest)].
Qed.

(** ** The shape of the output of [mapData] in the Vue components *)

Lemma or_else_not_nan (x : jsnum) : JS.is_nan (JS.or_else x (Fin 0)) = false.
Proof.
  destruct x as [| | |r]; try reflexivity.
  unfold JS.or_else; simpl; destruct (Req_dec_T r 0); reflexivity.
Qed.

(** ** Conversions that throw *)

Lemma throws_Number (v : jsval) : Val.throws v = true -> Val.Number v = NaN.
Proof. destruct v; simpl; try discriminate. reflexivity. Qed.

Lemma not_nan_convertible (v : jsval) :
  JS.is_nan (Val.Number v) = false -> convertible v.
Proof.
  intros H. unfold convertible. destruct (Val.throws v) eqn:E; [|reflexivity].
  rewrite (throws_Number v E) in H. discriminate.
Qed.

Lemma ToNumber_convertible (v : jsval) :
  convertible v -> Val.ToNumber v = Ok (Val.Number v).
Proof. unfold convertible, Val.ToNumber. now intros ->. Qed.

Lemma ToNumber_Ok (v : jsval) (n : jsnum) :
  Val.ToNumber v = Ok n -> convertible v /\ n = Val.Number v.
Proof.
  unfold convertible, Val.ToNumber. destruct (Val.throws v); [discriminate|].
  intros H. injection H as <-. split; reflexivity.
Qed.



(** ** [map] with a callback that can throw *)

Lemma mapM_Ok_map {A B : Type} (f : A -> result B) (g : A -> B) (l : list A) :
  (forall x, In x l -> f x = Ok (g x)) -> mapM f l = Ok (map g l).
Proof.
  induction l as [|x l IH]; intros H; [reflexivity|].
  simpl. rewrite (H x (or_introl eq_refl)). simpl.
  rewrite IH by (intros y Hy; apply H; now right). reflexivity.
Qed.

Lemma mapM_Ok_inv {A B : Type} (f : A -> result B) (l : list A) (out : list B) :
  mapM f l = Ok out -> forall x, In x l -> exists y, f x = Ok y.
Proof.
  revert out. induction l as [|x l IH]; intros out H y Hy; [destruct Hy|].
  simpl in H. destruct (f x) as [b|e] eqn:Hfx; [|discriminate].
  simpl in H. destruct (mapM f l) as [bs|e] eqn:Hl; [|discriminate].
  destruct Hy as [<-|Hy]; [now exists b | now apply (IH bs eq_refl)].
Qed.

Lemma mapM_Throw {A B : Type} (f : A -> result B) (l : list A) (x : A) :
  In x l -> f x = Throw TypeError -> mapM f l = Throw TypeError.
Proof.
  induction l as [|y l IH]; intros Hin Hx; [destruct Hin|].
  simpl. destruct Hin as [->|Hin].
  - rewrite Hx. reflexivity.
  - destruct (f y) as [b|[]]; [|reflexivity]. simpl.
    rewrite (IH Hin Hx). reflexivity.
Qed.

(** A callback that throws on the elements that [p] marks and returns [g]
    on the others. *)
Lemma mapM_cases {A B : Type} (f : A -> result B) (p : A -> bool) (g : A -> B)
    (l : list A) :
  (forall x, f x = if p x then Throw TypeError else Ok (g x)) ->
  mapM f l = if existsb p l then Throw TypeError else Ok (map g l).
Proof.
  intros H. induction l as [|x l IH]; [reflexivity|].
  cbn [mapM existsb map]. rewrite H, IH.
  destruct (p x); [reflexivity|]. cbn [bind orb].
  destruct (existsb p l); reflexivity.
Qed.

Lemma existsb_false_Forall {A : Type} (p : A -> bool) (l : list A) :
  existsb p l = false <-> Forall (fun x => p x = false) l.
Proof.
  induction l as [|x l IH]; cbn [existsb].
  - split; [constructor | reflexivity].
  - rewrite orb_false_iff, IH. split.
    + intros [H1 H2]. now constructor.
    + intros H. inversion H. now split.
Qed.

Section ShapeA.

Variable Number_toString : R -> string.
Variable props : TreeMapA.Props.

Lemma A_scales_map (src : list jsval) :
  TreeMapA.scales props src = map (TreeMapA.scaleVal props) src.
Proof. reflexivity. Qed.

Lemma A_scales_no_nan (src : list jsval) :
  existsb JS.is_nan (TreeMapA.scales props src) = false.
Proof.
  induction src as [|d src IH]; [reflexivity|].
  unfold TreeMapA.scales. cbn [map existsb].
  rewrite or_else_not_nan. exact IH.
Qed.

(** [mapData] throws when the scale field of a record cannot be converted,
    and otherwise returns the item of each record. *)
Lemma A_mapData_cases (src : list jsval) :
  TreeMapA.mapData Number_toString props (Some src) =
  if existsb (fun d => Val.throws (TreeMapA.scaleField props d)) src
  then Throw TypeError
  else Ok (map (itemA Number_toString props
                  (JS.Math_min (TreeMapA.scales props src))
                  (JS.Math_max (TreeMapA.scales props src))) src).
Proof.
  destruct src as [|d0 src]; [reflexivity|].
  unfold TreeMapA.mapData. cbn [List.length Nat.eqb].
  set (l := d0 :: src).
  rewrite (mapM_cases _ (fun d => Val.throws (TreeMapA.scaleField props d))
             (TreeMapA.scaleVal props) l).
  2:{ intros d. unfold Val.ToNumber, TreeMapA.scaleVal, TreeMapA.scaleField.
      destruct (Val.throws _); reflexivity. }
  destruct (existsb _ l) eqn:E; [reflexivity|]. cbn [bind].
  rewrite (mapM_cases _ (fun d => Val.throws (TreeMapA.scaleField props d))
             (itemA Number_toString props
                (JS.Math_min (TreeMapA.scales props l))
                (JS.Math_max (TreeMapA.scales props l))) l).
  2:{ intros d. unfold Val.ToNumber, TreeMapA.scaleField.
      destruct (Val.throws _); reflexivity. }
  now rewrite E.
Qed.

Lemma A_mapData_returns (src : list jsval) :
  Forall (fun d => convertible (TreeMapA.scaleField props d)) src ->
  TreeMapA.mapData Number_toString props (Some src) =
  Ok (map (itemA Number_toString props
             (JS.Math_min (TreeMapA.scales props src))
             (JS.Math_max (TreeMapA.scales props src))) src).
Proof.
  intros H. rewrite A_mapData_cases.
  apply existsb_false_Forall in H. now rewrite H.
Qed.

Lemma A_mapData_Ok (src : list jsval) (out : list TreeMapA.Item) :
  TreeMapA.mapData Number_toString props (Some src) = Ok out ->
  out = map (itemA Number_toString props
               (JS.Math_min (TreeMapA.scales props src))
               (JS.Math_max (TreeMapA.scales props src))) src /\
  Forall (fun d => convertible (TreeMapA.scaleField props d)) src.
Proof.
  rewrite A_mapData_cases.
  destruct (existsb _ src) eqn:E; [discriminate|].
  intros H. injection H as <-. split; [reflexivity|].
  now apply existsb_false_Forall.
Qed.

Lemma A_mapData_throws (src : list jsval) :
  TreeMapA.mapData Number_toString props (Some src) = Throw TypeError <->
  exists d, In d src /\ ~ convertible (TreeMapA.scaleField props d).
Proof.
  rewrite A_mapData_cases.
  destruct (existsb _ src) eqn:E.
  - split; [intros _ | reflexivity].
    apply existsb_exists in E. destruct E as (d & Hd & Ht).
    exists d. split; [exact Hd|]. unfold convertible. now rewrite Ht.
  - split; [discriminate|]. intros (d & Hd & Hn).
    rewrite existsb_false_Forall, Forall_forall in E. elim Hn. now apply E.
Qed.

Lemma A_mapData_length (src : list jsval) (out : list TreeMapA.Item) :
  TreeMapA.mapData Number_toString props (Some src) = Ok out ->
  List.length out = List.length src.
Proof. intros H. destruct (A_mapData_Ok src out H) as [-> _]. apply length_map. Qed.

Lemma A_mapData_nth (src : list jsval) (out : list TreeMapA.Item) (i : nat)
    (d : jsval) :
  TreeMapA.mapData Number_toString props (Some src) = Ok out ->
  nth_error src i = Some d ->
  exists it,
    nth_error out i = Some it /\
    TreeMapA.raw it = d /\
    TreeMapA.value it = TreeMapA.scaleVal props d /\
    TreeMapA.scale it = TreeMapA.scaleVal props d /\
    TreeMapA.name it = TreeMapA.nameVal props d /\
    TreeMapA.fund_name it = TreeMapA.nameVal props d /\
    TreeMapA.color (TreeMapA.itemStyle it) =
      rgba Number_toString TreeMapA.BASE_RGB
        (TreeMapA.computeAlpha (TreeMapA.scaleVal props d)
           (JS.Math_min (TreeMapA.scales props src))
           (JS.Math_max (TreeMapA.scales props src))).
Proof.
  intros H Hd. destruct (A_mapData_Ok src out H) as [-> _].
  rewrite nth_error_map, Hd. cbn [option_map].
  eexists. split; [reflexivity|]. repeat split.
Qed.

Lemma A_alphas_nth (src : list jsval) (i : nat) (d : jsval) :
  nth_error src i = Some d ->
  nth_error (TreeMapA.alphas props src) i =
  Some (TreeMapA.computeAlpha (TreeMapA.scaleVal props d)
          (JS.Math_min (TreeMapA.scales props src))
          (JS.Math_max (TreeMapA.scales props src))).
Proof.
  intros Hd. unfold TreeMapA.alphas, TreeMapA.scales.
  rewrite !nth_error_map, Hd. reflexivity.
Qed.

Lemma A_mapData_colors (src : list jsval) (out : list TreeMapA.Item) :
  TreeMapA.mapData Number_toString props (Some src) = Ok out ->
  map (fun it => TreeMapA.color (TreeMapA.itemStyle it)) out =
  map (rgba Number_toString TreeMapA.BASE_RGB) (TreeMapA.alphas props src).
Proof.
  intros H. destruct (A_mapData_Ok src out H) as [-> _].
  unfold TreeMapA.alphas, TreeMapA.scales. rewrite !map_map. reflexivity.
Qed.

End ShapeA.

Section ShapeB.

Variable Number_toString : R -> string.
Variable props : TreeMapB.Props.

Lemma B_scales_map (src : list jsval) :
  TreeMapB.scales props src = map (TreeMapB.scaleVal props) src.
Proof. reflexivity. Qed.

Lemma B_scales_no_nan (src : list jsval) :
  existsb JS.is_nan (TreeMapB.scales props src) = false.
Proof.
  induction src as [|d src IH]; [reflexivity|].
  unfold TreeMapB.scales. cbn [map existsb].
  rewrite or_else_not_nan. exact IH.
Qed.

Lemma B_mapData_cases (src : list jsval) :
  TreeMapB.mapData Number_toString props (Some src) =
  if existsb (fun d => Val.throws (TreeMapB.scaleField props d)) src
  then Throw TypeError
  else Ok (map (itemB Number_toString props
                  (JS.Math_min (TreeMapB.scales props src))
                  (JS.Math_max (TreeMapB.scales props src))) src).
Proof.
  destruct src as [|d0 src]; [reflexivity|].
  unfold TreeMapB.mapData. cbn [List.length Nat.eqb].
  set (l := d0 :: src).
  rewrite (mapM_cases _ (fun d => Val.throws (TreeMapB.scaleField props d))
             (TreeMapB.scaleVal props) l).
  2:{ intros d. unfold Val.ToNumber, TreeMapB.scaleVal, TreeMapB.scaleField.
      destruct (Val.throws _); reflexivity. }
  destruct (existsb _ l) eqn:E; [reflexivity|]. cbn [bind].
  rewrite (mapM_cases _ (fun d => Val.throws (TreeMapB.scaleField props d))
             (itemB Number_toString props
                (JS.Math_min (TreeMapB.scales props l))
                (JS.Math_max (TreeMapB.scales props l))) l).
  2:{ intros d. unfold Val.ToNumber, TreeMapB.scaleField.
      destruct (Val.throws _); reflexivity. }
  now rewrite E.
Qed.

Lemma B_mapData_returns (src : list jsval) :
  Forall (fun d => convertible (TreeMapB.scaleField props d)) src ->
  TreeMapB.mapData Number_toString props (Some src) =
  Ok (map (itemB Number_toString props
             (JS.Math_min (TreeMapB.scales props src))
             (JS.Math_max (TreeMapB.scales props src))) src).
Proof.
  intros H. rewrite B_mapData_cases.
  apply existsb_false_Forall in H. now rewrite H.
Qed.

Lemma B_mapData_Ok (src : list jsval) (out : list TreeMapB.Item) :
  TreeMapB.mapData Number_toString props (Some src) = Ok out ->
  out = map (itemB Number_toString props
               (JS.Math_min (TreeMapB.scales props src))
               (JS.Math_max (TreeMapB.scales props src))) src /\
  Forall (fun d => convertible (TreeMapB.scaleField props d)) src.
Proof.
  rewrite B_mapData_cases.
  destruct (existsb _ src) eqn:E; [discriminate|].
  intros H. injection H as <-. split; [reflexivity|].
  now apply existsb_false_Forall.
Qed.

Lemma B_mapData_throws (src : list jsval) :
  TreeMapB.mapData Number_toString props (Some src) = Throw TypeError <->
  exists d, In d src /\ ~ convertible (TreeMapB.scaleField props d).
Proof.
  rewrite B_mapData_cases.
  destruct (existsb _ src) eqn:E.
  - split; [intros _ | reflexivity].
    apply existsb_exists in E. destruct E as (d & Hd & Ht).
    exists d. split; [exact Hd|]. unfold convertible. now rewrite Ht.
  - split; [discriminate|]. intros (d & Hd & Hn).
    rewrite existsb_false_Forall, Forall_forall in E. elim Hn. now apply E.
Qed.

Lemma B_mapData_length (src : list jsval) (out : list TreeMapB.Item) :
  TreeMapB.mapData Number_toString props (Some src) = Ok out ->
  List.length out = List.length src.
Proof. intros H. destruct (B_mapData_Ok src out H) as [-> _]. apply length_map. Qed.

Lemma B_mapData_nth (src : list jsval) (out : list TreeMapB.Item) (i : nat)
    (d : jsval) :
  TreeMapB.mapData Number_toString props (Some src) = Ok out ->
  nth_error src i = Some d ->
  exists it,
    nth_error out i = Some it /\
    TreeMapB.raw it = d /\
    TreeMapB.value it = TreeMapB.scaleVal props d /\
    TreeMapB.scale it = TreeMapB.scaleVal props d /\
    TreeMapB.name it = TreeMapB.nameVal props d /\
    TreeMapB.fund_name it = TreeMapB.nameVal props d /\
    TreeMapB.color (TreeMapB.itemStyle it) =
      rgba Number_toString TreeMapB.BASE_RGB
        (TreeMapB.computeAlpha (TreeMapB.scaleVal props d)
           (JS.Math_min (TreeMapB.scales props src))
           (JS.Math_max (TreeMapB.scales props src))).
Proof.
  intros H Hd. destruct (B_mapData_Ok src out H) as [-> _].
  rewrite nth_error_map, Hd. cbn [option_map].
  eexists. split; [reflexivity|]. repeat split.
Qed.

Lemma B_alphas_nth (src : list jsval) (i : nat) (d : jsval) :
  nth_error src i = Some d ->
  nth_error (TreeMapB.alphas props src) i =
  Some (TreeMapB.computeAlpha (TreeMapB.scaleVal props d)
          (JS.Math_min (TreeMapB.scales props src))
          (JS.Math_max (TreeMapB.scales props src))).
Proof.
  intros Hd. unfold TreeMapB.alphas, TreeMapB.scales.
  rewrite !nth_error_map, Hd. reflexivity.
Qed.

Lemma B_mapData_colors (src : list jsval) (out : list TreeMapB.Item) :
  TreeMapB.mapData Number_toString props (Some src) = Ok out ->
  map (fun it => TreeMapB.color (TreeMapB.itemStyle it)) out =
  map (rgba Number_toString TreeMapB.BASE_RGB) (TreeMapB.alphas props src).
Proof.
  intros H. destruct (B_mapData_Ok src out H) as [-> _].
  unfold TreeMapB.alphas, TreeMapB.scales. rewrite !map_map. reflexivity.
Qed.

End ShapeB.

(** ** The shape of the output of [mapData] in the standalone script *)

Lemma get_readable (d : jsval) (k : string) :
  readable d -> Val.get d k = Ok (Val.get_opt d k).
Proof. destruct d; simpl; intros H; try contradiction; reflexivity. Qed.

Lemma get_Ok_readable (d : jsval) (k : string) (v : jsval) :
  Val.get d k = Ok v -> readable d /\ v = Val.get_opt d k.
Proof.
  destruct d; simpl; intros H; try discriminate;
    injection H as <-; split; (exact I || reflexivity).
Qed.

(** Records that can be read and whose scales are numbers other than [NaN]
    can be processed. *)
Lemma no_nan_processable (src : list jsval) :
  Forall readable src -> existsb JS.is_nan (script_scales src) = false ->
  Forall processable src.
Proof.
  intros Hr Hn. rewrite Forall_forall in *. intros d Hd.
  split; [now apply Hr|]. apply not_nan_convertible.
  destruct (JS.is_nan (Val.Number (Val.get_opt d "scale"))) eqn:E; [|reflexivity].
  rewrite <- Hn. symmetry. apply existsb_exists.
  exists (Val.Number (Val.get_opt d "scale")). split; [|exact E].
  unfold script_scales.
  exact (in_map (fun d => Val.Number (Val.get_opt d "scale")) src d Hd).
Qed.

Lemma finite_range_processable (src : list jsval) :
  Forall readable src -> finite_range (script_scales src) ->
  Forall processable src.
Proof.
  intros Hr [E|Hfin].
  - destruct src; [constructor | discriminate].
  - apply no_nan_processable; [exact Hr|].
    unfold JS.Math_max in Hfin.
    destruct (existsb JS.is_nan (script_scales src)); [|reflexivity].
    destruct Hfin.
Qed.

Section ShapeScript.

Variable Number_toString : R -> string.

Lemma script_mapData_readable (src : list jsval) :
  Forall processable src ->
  Script.mapData Number_toString src =
  Ok (map (script_item Number_toString (JS.Math_min (script_scales src))
                       (JS.Math_max (script_scales src))) src).
Proof.
  intros Hsrc. rewrite Forall_forall in Hsrc.
  unfold Script.mapData.
  rewrite (mapM_Ok_map _ (fun d => Val.get_opt d "scale"))
    by (intros d Hd; apply get_readable, Hsrc, Hd).
  cbn [bind].
  rewrite (mapM_Ok_map Val.ToNumber Val.Number).
  2:{ intros v Hv. apply in_map_iff in Hv. destruct Hv as (d & <- & Hd).
      apply ToNumber_convertible, Hsrc, Hd. }
  cbn [bind]. rewrite map_map.
  apply mapM_Ok_map. intros d Hd. destruct (Hsrc d Hd) as [Hr Hc].
  rewrite !(get_readable d _ Hr). cbn [bind].
  rewrite (ToNumber_convertible _ Hc). reflexivity.
Qed.

Lemma script_alphas_readable (src : list jsval) :
  Forall processable src ->
  Script.alphas src =
  Ok (map (fun s => Script.computeAlpha s (JS.Math_min (script_scales src))
                      (JS.Math_max (script_scales src)))
          (script_scales src)).
Proof.
  intros Hsrc. rewrite Forall_forall in Hsrc.
  unfold Script.alphas.
  rewrite (mapM_Ok_map _ (fun d => Val.get_opt d "scale"))
    by (intros d Hd; apply get_readable, Hsrc, Hd).
  cbn [bind].
  rewrite (mapM_Ok_map Val.ToNumber Val.Number).
  2:{ intros v Hv. apply in_map_iff in Hv. destruct Hv as (d & <- & Hd).
      apply ToNumber_convertible, Hsrc, Hd. }
  cbn [bind]. rewrite !map_map. unfold script_scales. rewrite map_map.
  apply mapM_Ok_map. intros d Hd. destruct (Hsrc d Hd) as [Hr Hc].
  rewrite (get_readable d _ Hr). cbn [bind].
  rewrite (ToNumber_convertible _ Hc). reflexivity.
Qed.

Lemma script_mapData_Ok_readable (src : list jsval) (out : list Script.Item) :
  Script.mapData Number_toString src = Ok out -> Forall processable src.
Proof.
  unfold Script.mapData. intros H.
  destruct (mapM (fun d => Val.get d "scale") src) as [scs|e] eqn:Hs;
    [|discriminate].
  cbn [bind] in H.
  destruct (mapM Val.ToNumber scs) as [ns|e] eqn:Hn; [|discriminate].
  assert (Hr : Forall readable src).
  { rewrite Forall_forall. intros d Hd.
    destruct (mapM_Ok_inv _ _ _ Hs d Hd) as [v Hv].
    now apply get_Ok_readable in Hv. }
  rewrite (mapM_Ok_map _ (fun d => Val.get_opt d "scale")) in Hs.
  2:{ rewrite Forall_forall in Hr. intros d Hd. apply get_readable, Hr, Hd. }
  injection Hs as <-.
  rewrite Forall_forall in *. intros d Hd. split; [now apply Hr|].
  destruct (mapM_Ok_inv _ _ _ Hn (Val.get_opt d "scale")) as [n Hv].
  { exact (in_map (fun d => Val.get_opt d "scale") src d Hd). }
  exact (proj1 (ToNumber_Ok _ _ Hv)).
Qed.

Lemma script_mapData_colors (src : list jsval) (out : list Script.Item) :
  Script.mapData Number_toString src = Ok out ->
  exists al, Script.alphas src = Ok al /\
             map (fun it => Script.color (Script.itemStyle it)) out =
             map (rgba Number_toString Script.BASE_RGB) al.
Proof.
  intros Hout.
  pose proof (script_mapData_Ok_readable src out Hout) as Hsrc.
  rewrite (script_mapData_readable src Hsrc) in Hout. injection Hout as <-.
  rewrite (script_alphas_readable src Hsrc).
  eexists. split; [reflexivity|].
  unfold script_scales. rewrite !map_map. reflexivity.
Qed.

Lemma script_mapData_throws (src : list jsval) (d : jsval) :
  In d src -> ~ processable d ->
  Script.mapData Number_toString src = Throw TypeError.
Proof.
  intros Hin Hd.
  destruct (Script.mapData Number_toString src) as [out|[]] eqn:E; [|reflexivity].
  pose proof (script_mapData_Ok_readable src out E) as H.
  rewrite Forall_forall in H. elim Hd. now apply H.
Qed.

End ShapeScript.

(** ** The scenario of the specification, evaluated *)

Lemma scenario_scales_A :
  TreeMapA.scales propsA scenario = [Fin 200; Fin 150; Fin 100; Fin 50].
Proof.
  unfold TreeMapA.scales, scenario, record. simpl.
  unfold JS.or_else, JS.truthy. js_decide. reflexivity.
Qed.

Lemma scenario_scales_B :
  TreeMapB.scales propsB scenario = [Fin 200; Fin 150; Fin 100; Fin 50].
Proof.
  unfold TreeMapB.scales, scenario, record. simpl.
  unfold JS.or_else, JS.truthy. js_decide. reflexivity.
Qed.

Lemma scenario_scales_script :
  script_scales scenario = [Fin 200; Fin 150; Fin 100; Fin 50].
Proof. reflexivity. Qed.

Lemma scenario_min : JS.Math_min [Fin 200; Fin 150; Fin 100; Fin 50] = Fin 50.
Proof. js_fold. reflexivity. Qed.

Lemma scenario_max : JS.Math_max [Fin 200; Fin 150; Fin 100; Fin 50] = Fin 200.
Proof. js_fold. reflexivity. Qed.

Lemma scenario_alpha_A : Script.computeAlpha (Fin 200) (Fin 50) (Fin 200) = Fin 0.9.
Proof.
  rewrite computeAlpha_small by lra.
  replace ((200 - 50) / (200 - 50)) with 1 by lra.
  rewrite clamp_id by lra. now rewrite ease_1.
Qed.

Lemma scenario_alpha_B : Script.computeAlpha (Fin 150) (Fin 50) (Fin 200) = Fin 0.8.
Proof.
  rewrite computeAlpha_small by lra.
  replace ((150 - 50) / (200 - 50)) with (2 / 3) by lra.
  rewrite clamp_id by lra. now rewrite ease_two_thirds.
Qed.

Lemma scenario_alpha_C : Script.computeAlpha (Fin 100) (Fin 50) (Fin 200) = Fin 0.6.
Proof.
  rewrite computeAlpha_small by lra.
  replace ((100 - 50) / (200 - 50)) with (1 / 3) by lra.
  rewrite clamp_id by lra. now rewrite ease_third.
Qed.

Lemma scenario_alpha_D : Script.computeAlpha (Fin 50) (Fin 50) (Fin 200) = Fin 0.5.
Proof.
  rewrite computeAlpha_small by lra.
  replace ((50 - 50) / (200 - 50)) with 0 by lra.
  rewrite clamp_id by lra. now rewrite ease_0.
Qed.

Lemma scenario_alphas_A :
  TreeMapA.alphas propsA scenario = [Fin 0.9; Fin 0.8; Fin 0.6; Fin 0.5].
Proof.
  unfold TreeMapA.alphas. rewrite scenario_scales_A, scenario_min, scenario_max.
  cbn [map]. change TreeMapA.computeAlpha with Script.computeAlpha.
  now rewrite scenario_alpha_A, scenario_alpha_B, scenario_alpha_C,
    scenario_alpha_D.
Qed.

Lemma scenario_alphas_B :
  TreeMapB.alphas propsB scenario = [Fin 0.9; Fin 0.8; Fin 0.6; Fin 0.5].
Proof.
  unfold TreeMapB.alphas. rewrite scenario_scales_B, scenario_min, scenario_max.
  cbn [map]. change TreeMapB.computeAlpha with Script.computeAlpha.
  now rewrite scenario_alpha_A, scenario_alpha_B, scenario_alpha_C,
    scenario_alpha_D.
Qed.

Lemma scenario_processable : Forall processable scenario.
Proof. repeat constructor. Qed.

Lemma scenario_alphas_script :
  Script.alphas scenario = Ok [Fin 0.9; Fin 0.8; Fin 0.6; Fin 0.5].
Proof.
  rewrite (script_alphas_readable scenario scenario_processable).
  rewrite scenario_scales_script, scenario_min, scenario_max.
  cbn [map].
  now rewrite scenario_alpha_A, scenario_alpha_B, scenario_alpha_C,
    scenario_alpha_D.
Qed.

(** ** [toFixed(3)] on the alphas *)

Lemma toFixed3_Fin (ts : R -> string) (r : R) (n : Z) :
  0 <= r -> r < IZR (10 ^ 21) ->
  IZR n <= r * 1000 + / 2 < IZR n + 1 ->
  toFixed3 ts (Fin r) = Str.fixed3_digits n.
Proof.
  intros H0 Hbig Hn. unfold toFixed3.
  destruct (Rlt_dec r 0) as [Hneg|_]; [lra|].
  destruct (Rle_dec (IZR (10 ^ 21)) r) as [Hge|_]; [lra|].
  rewrite <- (Int_part_spec (r * 1000 + / 2) n) by lra.
  reflexivity.
Qed.

Lemma one_lt_1e21 : 1 < IZR (10 ^ 21).
Proof. apply IZR_lt. reflexivity. Qed.

Lemma toFixed3_band (ts : R -> string) (r : R) (n : Z) :
  0.5 <= r <= 0.9 -> IZR n <= r * 1000 + / 2 < IZR n + 1 ->
  toFixed3 ts (Fin r) = Str.fixed3_digits n.
Proof.
  intros Hr Hn. pose proof one_lt_1e21.
  apply toFixed3_Fin; lra.
Qed.

Lemma toFixed3_examples (ts : R -> string) :
  toFixed3 ts (Fin 0.9) = "0.900" /\ toFixed3 ts (Fin 0.8) = "0.800" /\
  toFixed3 ts (Fin 0.6) = "0.600" /\ toFixed3 ts (Fin 0.5) = "0.500".
Proof.
  repeat split.
  - rewrite (toFixed3_band ts 0.9 900) by lra. reflexivity.
  - rewrite (toFixed3_band ts 0.8 800) by lra. reflexivity.
  - rewrite (toFixed3_band ts 0.6 600) by lra. reflexivity.
  - rewrite (toFixed3_band ts 0.5 500) by lra. reflexivity.
Qed.

Lemma rgba_examples (ts : R -> string) :
  rgba ts Script.BASE_RGB (Fin 0.9) = "rgba(87, 129, 253, 0.900)" /\
  rgba ts Script.BASE_RGB (Fin 0.8) = "rgba(87, 129, 253, 0.800)" /\
  rgba ts Script.BASE_RGB (Fin 0.6) = "rgba(87, 129, 253, 0.600)" /\
  rgba ts Script.BASE_RGB (Fin 0.5) = "rgba(87, 129, 253, 0.500)" /\
  rgba ts Script.BASE_RGB NaN = "rgba(87, 129, 253, NaN)".
Proof.
  destruct (toFixed3_examples ts) as (H9 & H8 & H6 & H5).
  unfold rgba. rewrite H9, H8, H6, H5. repeat split.
Qed.

(** ** Conversion of the scale field in the Vue components *)





Lemma to_number_examples :
  Str.to_number "abc" = NaN /\ Str.to_number "" = Fin 0 /\
  Str.to_number "12px" = NaN /\ Str.to_number " 50 " = Fin 50 /\
  Str.to_number "Infinity" = PInf /\ Str.to_number "-Infinity" = NInf /\
  Str.to_number "0x1F" = Fin 31 /\ Str.to_number "2.5e1" = Fin 25 /\
  Str.to_number "1e" = NaN /\ Str.to_number "." = NaN.
Proof.
  repeat split; try reflexivity.
Qed.

(** White space of every kind is stripped: the no-break space before "12"
    leaves 12. *)
Lemma to_number_white_space : Str.to_number nbsp_12 = Fin 12.
Proof. reflexivity. Qed.

(** ** Equal scales *)

Lemma computeAlpha_same (s x : jsnum) :
  JS.is_nan x = false -> Script.computeAlpha s x x = Fin 0.9.
Proof.
  intros Hx. rewrite computeAlpha_unfold, (strict_eq_refl x Hx). reflexivity.
Qed.

Lemma no_nan_In (l : list jsnum) (x : jsnum) :
  existsb JS.is_nan l = false -> In x l -> JS.is_nan x = false.
Proof.
  intros H Hin. destruct (JS.is_nan x) eqn:E; [|reflexivity].
  rewrite <- H. symmetry. apply existsb_exists. now exists x.
Qed.

(** When all the numbers of [l] are one number, not [NaN], every alpha
    computed against the minimum and maximum of [l] is [MAX_ALPHA]. *)
Lemma equal_scales_alphas (l : list jsnum) :
  existsb JS.is_nan l = false ->
  (forall x y, In x l -> In y l -> x = y) ->
  Forall (fun a => a = Fin 0.9)
    (map (fun s => Script.computeAlpha s (JS.Math_min l) (JS.Math_max l)) l).
Proof.
  intros Hnan Heq. destruct l as [|x l]; [constructor|].
  assert (Hx : JS.is_nan x = false) by (apply (no_nan_In _ _ Hnan); now left).
  destruct (Math_min_max_const x (x :: l) Hx) as [-> ->];
    [discriminate | intros y Hy; apply Heq; [exact Hy | now left] |].
  apply Forall_forall. intros a Ha. apply in_map_iff in Ha.
  destruct Ha as (s & <- & _). now apply computeAlpha_same.
Qed.

(** The divisor [max - min] of [computeAlpha] is not zero once
    [max === min] has failed. *)
Lemma divisor_not_zero (min max : jsnum) :
  JS.strict_eq max min = false -> JS.sub max min <> Fin 0.
Proof.
  destruct max as [| | |mx], min as [| | |mn]; simpl; try discriminate.
  destruct (Req_dec_T mx mn) as [E|Hne]; [discriminate|].
  intros _. unfold JS.overflow.
  destruct (Rle_dec JS.huge (mx + - mn)); [discriminate|].
  destruct (Rle_dec (mx + - mn) (- JS.huge)); [discriminate|].
  intros H. injection H as H. lra.
Qed.

Lemma equal_pair_scales : TreeMapA.scales propsA equal_pair = [Fin 10; Fin 10].
Proof.
  unfold TreeMapA.scales, equal_pair, record. simpl.
  unfold JS.or_else, JS.truthy. js_decide. reflexivity.
Qed.

(** ** The band *)

Lemma finite_scales_band (l : list jsnum) :
  finite_range l ->
  Forall in_band
    (map (fun s => Script.computeAlpha s (JS.Math_min l) (JS.Math_max l)) l).
Proof.
  intros [->|Hrange]; [constructor|].
  destruct (finite_range_inv l Hrange) as (_ & Hfin & _).
  rewrite Forall_forall in Hfin.
  apply Forall_forall. intros a Ha. apply in_map_iff in Ha.
  destruct Ha as (s & <- & Hs).
  apply computeAlpha_range_band; [|exact Hrange].
  specialize (Hfin s Hs). destruct s; try contradiction. reflexivity.
Qed.

(** ** Monotonicity *)

Lemma computeAlpha_position (mn mx : R) (s : jsnum) :
  mn < mx -> mx - mn < JS.huge -> JS.is_nan s = false ->
  Script.computeAlpha s (Fin mn) (Fin mx) = Fin (ease (position mn mx s)).
Proof.
  intros Hlt Hrange Hs. pose proof huge_large.
  destruct s as [| | |r]; try discriminate.
  - rewrite (computeAlpha_infinite PInf) by (auto; lra).
    rewrite lt_Fin_true by exact Hlt. reflexivity.
  - rewrite (computeAlpha_infinite NInf) by (auto; lra).
    rewrite lt_Fin_true by exact Hlt. reflexivity.
  - apply computeAlpha_Fin; lra.
Qed.

Lemma position_unit (mn mx : R) (s : jsnum) : 0 <= position mn mx s <= 1.
Proof. destruct s; simpl; try lra. apply clamp_unit. Qed.

Lemma position_mono (mn mx : R) (s1 s2 : jsnum) :
  mn < mx -> JS.lt s1 s2 = true -> position mn mx s1 <= position mn mx s2.
Proof.
  intros Hlt H12.
  destruct s1 as [| | |r1], s2 as [| | |r2]; simpl in H12; try discriminate;
    simpl position; try lra;
    try (pose proof (clamp_unit ((r1 - mn) / (mx - mn))); lra);
    try (pose proof (clamp_unit ((r2 - mn) / (mx - mn))); lra).
  destruct (Rlt_dec r1 r2) as [Hr|]; [|discriminate].
  apply clamp_mono. unfold Rdiv. apply Rmult_le_compat_r; [|lra].
  left. apply Rinv_0_lt_compat. lra.
Qed.

(** For finite [mn <= mx], [computeAlpha] does not decrease when the scale
    grows. *)
Lemma computeAlpha_mono (mn mx : R) (s1 s2 : jsnum) :
  mn <= mx -> mx - mn < JS.huge -> JS.lt s1 s2 = true ->
  JS.le (Script.computeAlpha s1 (Fin mn) (Fin mx))
        (Script.computeAlpha s2 (Fin mn) (Fin mx)) = true.
Proof.
  intros Hle Hrange H12.
  destruct (Req_dec_T mn mx) as [->|Hne].
  - rewrite !computeAlpha_same by reflexivity. apply le_Fin_iff. lra.
  - assert (Hlt : mn < mx) by lra.
    assert (Hs1 : JS.is_nan s1 = false) by (destruct s1; [discriminate|..]; reflexivity).
    assert (Hs2 : JS.is_nan s2 = false)
      by (destruct s2; [destruct s1; discriminate|..]; reflexivity).
    rewrite !computeAlpha_position by assumption.
    apply le_Fin_iff.
    pose proof (position_unit mn mx s1). pose proof (position_unit mn mx s2).
    apply ease_mono; try lra. now apply position_mono.
Qed.

Lemma finite_scales_mono (l : list jsnum) (sa sb : jsnum) :
  finite_range l -> In sa l -> In sb l -> JS.lt sa sb = true ->
  JS.le (Script.computeAlpha sa (JS.Math_min l) (JS.Math_max l))
        (Script.computeAlpha sb (JS.Math_min l) (JS.Math_max l)) = true.
Proof.
  intros [->|Hrange] Ha Hb Hlt; [destruct Ha|].
  destruct (finite_range_inv l Hrange)
    as (_ & Hfin & mn & mx & -> & -> & Hd & Hbounds).
  apply computeAlpha_mono; [|lra|exact Hlt].
  rewrite Forall_forall in Hfin.
  pose proof (Hfin sa Ha) as Hsa. destruct sa as [| | |r]; try contradiction.
  pose proof (Hbounds r Ha). lra.
Qed.

(** ** Inputs outside a finite range *)

Lemma big_pos : 0 < big.
Proof. unfold big. apply IZR_lt. reflexivity. Qed.

Lemma big_overflows : JS.huge <= big + big.
Proof.
  unfold JS.huge, big. rewrite <- plus_IZR. apply IZR_le.
  apply Z.leb_le. reflexivity.
Qed.

Lemma unbounded_scales : TreeMapA.scales propsA unbounded = [PInf; Fin 1].
Proof.
  unfold TreeMapA.scales, unbounded, record. simpl.
  unfold JS.or_else, JS.truthy. js_decide. reflexivity.
Qed.

Lemma unbounded_alphas_of : alphas_of [PInf; Fin 1] = [NaN; Fin 0.5].
Proof.
  unfold alphas_of.
  replace (JS.Math_min [PInf; Fin 1]) with (Fin 1) by reflexivity.
  replace (JS.Math_max [PInf; Fin 1]) with PInf by reflexivity.
  cbn [map].
  rewrite !computeAlpha_unfold. simpl JS.strict_eq.
  unfold JS.sub. cbn [JS.neg JS.add].
  rewrite (overflow_small (1 + - (1))) by lra.
  cbn [JS.div]. unfold alpha_of_lin, clamp01.
  rewrite clamp_id by lra. now rewrite ease_0.
Qed.

Lemma unbounded_alphas : TreeMapA.alphas propsA unbounded = [NaN; Fin 0.5].
Proof.
  change (alphas_of (TreeMapA.scales propsA unbounded) = [NaN; Fin 0.5]).
  rewrite unbounded_scales. exact unbounded_alphas_of.
Qed.

Lemma unbounded_alphas_script : Script.alphas unbounded = Ok [NaN; Fin 0.5].
Proof.
  rewrite (script_alphas_readable unbounded) by (repeat constructor).
  change (Ok (alphas_of [PInf; Fin 1]) = Ok [NaN; Fin 0.5]).
  now rewrite unbounded_alphas_of.
Qed.

Lemma overflowing_scales :
  TreeMapA.scales propsA overflowing = [Fin big; Fin (- big)].
Proof.
  pose proof big_pos as Hpos.
  unfold TreeMapA.scales, overflowing, record. simpl.
  unfold JS.or_else, JS.truthy. js_decide. reflexivity.
Qed.

Lemma overflowing_alphas : TreeMapA.alphas propsA overflowing = [NaN; Fin 0.5].
Proof.
  pose proof big_pos as Hpos. pose proof big_overflows as Hov.
  pose proof huge_large as Hh.
  pose proof overflowing_scales as Hs.
  assert (Hmin : JS.Math_min [Fin big; Fin (- big)] = Fin (- big))
    by (js_fold; reflexivity).
  assert (Hmax : JS.Math_max [Fin big; Fin (- big)] = Fin big)
    by (js_fold; reflexivity).
  unfold TreeMapA.alphas. rewrite Hs, Hmin, Hmax.
  cbn [map]. change TreeMapA.computeAlpha with Script.computeAlpha.
  rewrite !computeAlpha_unfold. simpl JS.strict_eq.
  destruct (Req_dec_T big (- big)) as [E|_]; [lra|].
  unfold JS.sub. cbn [JS.neg JS.add].
  assert (Hinf : JS.overflow (big + - - big) = PInf).
  { unfold JS.overflow. destruct (Rle_dec JS.huge (big + - - big)); [reflexivity | lra]. }
  rewrite Hinf, (overflow_small (- big + - - big)) by lra.
  cbn [JS.div]. unfold alpha_of_lin, clamp01.
  rewrite clamp_id by lra. now rewrite ease_0.
Qed.

(** ** Scales and names that cannot be converted *)

(** A scale that is an object hiding the built-in [toString] makes every
    [mapData] throw, whatever the other records hold, so [updateTreemap]
    makes no call; a name of that kind passes [mapData] and makes the
    tooltip of the script throw. *)
Lemma unconvertible_examples (ts : R -> string) :
  TreeMapA.mapData ts propsA (Some unconvertible) = Throw TypeError /\
  TreeMapB.mapData ts propsB (Some unconvertible) = Throw TypeError /\
  Script.mapData ts unconvertible = Throw TypeError /\
  ScriptView.updateTreemap ts unconvertible = ([], Some TypeError) /\
  (exists it,
     Script.mapData ts [VObj [("fundname", VObj [("toString", VNum (Fin 1))]);
                              ("scale", VNum (Fin 1))]] = Ok [it] /\
     ScriptView.formatter ts (Some it) = Throw TypeError).
Proof.
  repeat split. eexists. split; reflexivity.
Qed.

(** * The claims *)

(** C1.  The claim holds of what the code sets out to do, and the code
    misses it: with an infinite scale in the input the alpha of that record
    is [NaN], which is outside the band, and the colour string carries it.
    The same happens with the two finite scales [2^1023] and [-2^1023],
    whose difference overflows. *)
Theorem infinite_scale_alpha_nan :
  TreeMapA.alphas propsA unbounded = [NaN; Fin 0.5] /\
  ~ in_band NaN /\
  (exists out,
     TreeMapA.mapData Number_toString_any propsA (Some unbounded) = Ok out /\
     map (fun it => TreeMapA.color (TreeMapA.itemStyle it)) out =
     ["rgba(87, 129, 253, NaN)"; "rgba(87, 129, 253, 0.500)"]) /\
  TreeMapA.alphas propsA overflowing = [NaN; Fin 0.5] /\
  Script.alphas unbounded = Ok [NaN; Fin 0.5] /\
  Script.computeAlpha PInf (Fin 1) PInf = NaN.
Proof.
  split; [exact unbounded_alphas|]. split; [intros []|].
  split; [|split; [exact overflowing_alphas|
                   split; [exact unbounded_alphas_script | reflexivity]]].
  eexists. split; [apply A_mapData_returns; repeat constructor|].
  rewrite (A_mapData_colors Number_toString_any propsA unbounded)
    by (apply A_mapData_returns; repeat constructor).
  rewrite unbounded_alphas. cbn [map].
  destruct (rgba_examples Number_toString_any) as (_ & _ & _ & H5 & Hn).
  change TreeMapA.BASE_RGB with Script.BASE_RGB.
  now rewrite H5, Hn.
Qed.

(** C2 as stated fails for [max < min]: with [min] 10 and [max] 0 the
    scale 0 gets the alpha 0.9 and the larger scale 10 gets 0.5.  It also
    fails for an infinite [min]: both alphas are [NaN], and [NaN <= NaN] is
    false.  In [mapData] it fails for the scales [2^1023] and [-2^1023],
    whose difference overflows: the smaller scale gets 0.5 and the larger
    one [NaN]. *)
Lemma computeAlpha_decreasing_when_max_below_min :
  (JS.lt (Fin 0) (Fin 10) = true /\
   Script.computeAlpha (Fin 0) (Fin 10) (Fin 0) = Fin 0.9 /\
   Script.computeAlpha (Fin 10) (Fin 10) (Fin 0) = Fin 0.5 /\
   JS.le (Script.computeAlpha (Fin 0) (Fin 10) (Fin 0))
         (Script.computeAlpha (Fin 10) (Fin 10) (Fin 0)) = false) /\
  (JS.lt (Fin 1) (Fin 2) = true /\
   JS.le (Script.computeAlpha (Fin 1) NInf (Fin 5))
         (Script.computeAlpha (Fin 2) NInf (Fin 5)) = false) /\
  (TreeMapA.scales propsA overflowing = [Fin big; Fin (- big)] /\
   JS.lt (Fin (- big)) (Fin big) = true /\
   TreeMapA.alphas propsA overflowing = [NaN; Fin 0.5] /\
   JS.le (Fin 0.5) NaN = false).
Proof.
  assert (H1 : Script.computeAlpha (Fin 0) (Fin 10) (Fin 0) = Fin 0.9).
  { rewrite computeAlpha_small by lra.
    replace ((0 - 10) / (0 - 10)) with 1 by lra.
    rewrite clamp_id by lra. now rewrite ease_1. }
  assert (H2 : Script.computeAlpha (Fin 10) (Fin 10) (Fin 0) = Fin 0.5).
  { rewrite computeAlpha_small by lra.
    replace ((10 - 10) / (0 - 10)) with 0 by lra.
    rewrite clamp_id by lra. now rewrite ease_0. }
  split; [|split].
  - split; [apply lt_Fin_true; lra|].
    split; [exact H1|]. split; [exact H2|].
    rewrite H1, H2. simpl. destruct (Rle_dec 0.9 0.5); [lra | reflexivity].
  - split; [apply lt_Fin_true; lra | reflexivity].
  - pose proof big_pos.
    split; [exact overflowing_scales|].
    split; [apply lt_Fin_true; lra|].
    split; [exact overflowing_alphas | reflexivity].
Qed.

(** C2, amended.  For finite [min <= max] whose difference does not
    overflow, each copy of [computeAlpha] is monotonic non-decreasing in its
    scale argument.  Consequently, in one call of [mapData] in which
    [max - min] over the extracted scales is finite, a record with the
    smaller scale never gets the larger alpha. *)
Theorem alpha_monotone (pA : TreeMapA.Props) (pB : TreeMapB.Props)
    (mn mx : R) (s1 s2 : jsnum) (src : list jsval) (i j : nat) (a b : jsval) :
  (mn <= mx -> mx - mn < JS.huge -> JS.lt s1 s2 = true ->
   JS.le (Script.computeAlpha s1 (Fin mn) (Fin mx))
         (Script.computeAlpha s2 (Fin mn) (Fin mx)) = true /\
   JS.le (TreeMapA.computeAlpha s1 (Fin mn) (Fin mx))
         (TreeMapA.computeAlpha s2 (Fin mn) (Fin mx)) = true /\
   JS.le (TreeMapB.computeAlpha s1 (Fin mn) (Fin mx))
         (TreeMapB.computeAlpha s2 (Fin mn) (Fin mx)) = true) /\
  (nth_error src i = Some a -> nth_error src j = Some b ->
   (finite_range (TreeMapA.scales pA src) ->
    JS.lt (TreeMapA.scaleVal pA a) (TreeMapA.scaleVal pA b) = true ->
    exists x y, nth_error (TreeMapA.alphas pA src) i = Some x /\
                nth_error (TreeMapA.alphas pA src) j = Some y /\
                JS.le x y = true) /\
   (finite_range (TreeMapB.scales pB src) ->
    JS.lt (TreeMapB.scaleVal pB a) (TreeMapB.scaleVal pB b) = true ->
    exists x y, nth_error (TreeMapB.alphas pB src) i = Some x /\
                nth_error (TreeMapB.alphas pB src) j = Some y /\
                JS.le x y = true) /\
   (Forall readable src -> finite_range (script_scales src) ->
    JS.lt (Val.Number (Val.get_opt a "scale"))
          (Val.Number (Val.get_opt b "scale")) = true ->
    exists al x y, Script.alphas src = Ok al /\
                   nth_error al i = Some x /\ nth_error al j = Some y /\
                   JS.le x y = true)).
Proof.
  split.
  - intros Hle Hrange Hlt.
    pose proof (computeAlpha_mono mn mx s1 s2 Hle Hrange Hlt) as H.
    repeat split; exact H.
  - intros Ha Hb. split; [|split].
    + intros Hfin Hlt.
      rewrite (A_alphas_nth pA src i a Ha), (A_alphas_nth pA src j b Hb).
      do 2 eexists. split; [reflexivity|]. split; [reflexivity|].
      apply finite_scales_mono; [exact Hfin | | | exact Hlt];
        rewrite A_scales_map; apply in_map; eapply nth_error_In; eassumption.
    + intros Hfin Hlt.
      rewrite (B_alphas_nth pB src i a Ha), (B_alphas_nth pB src j b Hb).
      do 2 eexists. split; [reflexivity|]. split; [reflexivity|].
      apply finite_scales_mono; [exact Hfin | | | exact Hlt];
        rewrite B_scales_map; apply in_map; eapply nth_error_In; eassumption.
    + intros Hread Hfin Hlt.
      rewrite (script_alphas_readable src
                 (finite_range_processable src Hread Hfin)).
      set (f := fun s => Script.computeAlpha s _ _).
      exists (map f (script_scales src)),
             (f (Val.Number (Val.get_opt a "scale"))),
             (f (Val.Number (Val.get_opt b "scale"))).
      split; [reflexivity|].
      unfold script_scales. rewrite !map_map, !nth_error_map, Ha, Hb.
      split; [reflexivity|]. split; [reflexivity|].
      subst f. cbv beta.
      apply finite_scales_mono; [exact Hfin | | | exact Hlt];
        unfold script_scales;
        apply (in_map (fun d => Val.Number (Val.get_opt d "scale")));
        eapply nth_error_In; eassumption.
Qed.

Lemma alpha_monotone_witness :
  (50 <= 200 /\ 200 - 50 < JS.huge /\ JS.lt (Fin 100) (Fin 150) = true) /\
  JS.le (Script.computeAlpha (Fin 100) (Fin 50) (Fin 200))
        (Script.computeAlpha (Fin 150) (Fin 50) (Fin 200)) = true /\
  (finite_range (TreeMapA.scales propsA scenario) /\
   JS.lt (TreeMapA.scaleVal propsA (record "C" (VNum (Fin 100))))
         (TreeMapA.scaleVal propsA (record "B" (VNum (Fin 150)))) = true) /\
  exists x y, nth_error (TreeMapA.alphas propsA scenario) 2 = Some x /\
              nth_error (TreeMapA.alphas propsA scenario) 1 = Some y /\
              JS.le x y = true.
Proof.
  pose proof huge_large as Hh.
  assert (Hle : 50 <= 200) by lra.
  assert (Hrange : 200 - 50 < JS.huge) by lra.
  assert (Hlt : JS.lt (Fin 100) (Fin 150) = true) by (apply lt_Fin_true; lra).
  assert (Hfin : finite_range (TreeMapA.scales propsA scenario)).
  { right. rewrite scenario_scales_A, scenario_min, scenario_max.
    apply finite_sub_Fin. lra. }
  assert (Hrec : JS.lt (TreeMapA.scaleVal propsA (record "C" (VNum (Fin 100))))
                       (TreeMapA.scaleVal propsA (record "B" (VNum (Fin 150)))) = true).
  { unfold TreeMapA.scaleVal, record. simpl.
    unfold JS.or_else, JS.truthy. js_decide. exact Hlt. }
  pose proof (alpha_monotone propsA propsB 50 200 (Fin 100) (Fin 150) scenario
                2 1 (record "C" (VNum (Fin 100))) (record "B" (VNum (Fin 150))))
    as (H1 & H2).
  split; [repeat split; assumption|].
  split; [exact (proj1 (H1 Hle Hrange Hlt))|].
  split; [split; assumption|].
  exact (proj1 (H2 eq_refl eq_refl) Hfin Hrec).
Defined.

(** C3 as stated fails in the standalone script: on the single record
    without a scale field the alpha is [NaN], not 0.9. *)
Lemma script_single_record_nan :
  List.length unscaled = 1%nat /\
  Script.alphas unscaled = Ok [NaN] /\ NaN <> Fin 0.9.
Proof. repeat split. discriminate. Qed.

(** C3, amended.  For a non-empty input whose extracted scales are all
    equal every alpha is [MAX_ALPHA] = 0.9: in the Vue components always, and
    so on every single-element input; in the script when the records can be
    read and the common scale converts to a number other than [NaN].  The
    divisor [max - min] is never zero where [computeAlpha] divides. *)
Theorem equal_scales_max_alpha
    (pA : TreeMapA.Props) (pB : TreeMapB.Props) (src : list jsval) :
  src <> [] ->
  ((forall x y, In x (TreeMapA.scales pA src) -> In y (TreeMapA.scales pA src) ->
                x = y) ->
   Forall (fun a => a = TreeMapA.MAX_ALPHA) (TreeMapA.alphas pA src)) /\
  ((forall x y, In x (TreeMapB.scales pB src) -> In y (TreeMapB.scales pB src) ->
                x = y) ->
   Forall (fun a => a = TreeMapB.MAX_ALPHA) (TreeMapB.alphas pB src)) /\
  (Forall readable src ->
   (forall x y, In x (script_scales src) -> In y (script_scales src) -> x = y) ->
   (forall x, In x (script_scales src) -> x <> NaN) ->
   exists al, Script.alphas src = Ok al /\
              Forall (fun a => a = Script.MAX_ALPHA) al) /\
  (forall d, TreeMapA.alphas pA [d] = [TreeMapA.MAX_ALPHA] /\
             TreeMapB.alphas pB [d] = [TreeMapB.MAX_ALPHA]) /\
  (forall min max, JS.strict_eq max min = false -> JS.sub max min <> Fin 0).
Proof.
  intros Hne. split; [|split; [|split; [|split]]].
  - intros Heq. apply equal_scales_alphas; [apply A_scales_no_nan | exact Heq].
  - intros Heq. apply equal_scales_alphas; [apply B_scales_no_nan | exact Heq].
  - intros Hread Heq Hnan.
    assert (E : existsb JS.is_nan (script_scales src) = false).
    { destruct (existsb JS.is_nan (script_scales src)) eqn:E; [|reflexivity].
      apply existsb_exists in E. destruct E as (x & Hx & Hxn).
      destruct x; try discriminate. now destruct (Hnan NaN Hx). }
    rewrite (script_alphas_readable src (no_nan_processable src Hread E)).
    eexists. split; [reflexivity|].
    apply equal_scales_alphas; [exact E | exact Heq].
  - intros d. split.
    + unfold TreeMapA.alphas. cbn [TreeMapA.scales map].
      set (s := JS.or_else _ _).
      assert (Hs : JS.is_nan s = false) by apply or_else_not_nan.
      destruct (Math_min_max_const s [s] Hs) as [-> ->];
        [discriminate | intros y [<-|[]]; reflexivity |].
      change TreeMapA.computeAlpha with Script.computeAlpha.
      now rewrite computeAlpha_same.
    + unfold TreeMapB.alphas. cbn [TreeMapB.scales map].
      set (s := JS.or_else _ _).
      assert (Hs : JS.is_nan s = false) by apply or_else_not_nan.
      destruct (Math_min_max_const s [s] Hs) as [-> ->];
        [discriminate | intros y [<-|[]]; reflexivity |].
      change TreeMapB.computeAlpha with Script.computeAlpha.
      now rewrite computeAlpha_same.
  - exact divisor_not_zero.
Qed.

Lemma equal_scales_max_alpha_witness :
  (equal_pair <> [] /\
   forall x y, In x (TreeMapA.scales propsA equal_pair) ->
               In y (TreeMapA.scales propsA equal_pair) -> x = y) /\
  Forall (fun a => a = Fin 0.9) (TreeMapA.alphas propsA equal_pair) /\
  (Forall readable equal_pair /\
   (forall x y, In x (script_scales equal_pair) ->
                In y (script_scales equal_pair) -> x = y) /\
   (forall x, In x (script_scales equal_pair) -> x <> NaN)) /\
  exists al, Script.alphas equal_pair = Ok al /\
             Forall (fun a => a = Fin 0.9) al.
Proof.
  assert (Hread : Forall readable equal_pair) by (repeat constructor).
  assert (HeqS : forall x y, In x (script_scales equal_pair) ->
                             In y (script_scales equal_pair) -> x = y).
  { intros x y [<-|[<-|[]]] [<-|[<-|[]]]; reflexivity. }
  assert (HnanS : forall x, In x (script_scales equal_pair) -> x <> NaN).
  { intros x [<-|[<-|[]]]; discriminate. }
  assert (Hne : equal_pair <> []) by discriminate.
  assert (Heq : forall x y, In x (TreeMapA.scales propsA equal_pair) ->
                            In y (TreeMapA.scales propsA equal_pair) -> x = y).
  { rewrite equal_pair_scales. intros x y [<-|[<-|[]]] [<-|[<-|[]]]; reflexivity. }
  pose proof (equal_scales_max_alpha propsA propsB equal_pair Hne)
    as (HA & _ & HS & _).
  split; [split; assumption|].
  split; [exact (HA Heq)|].
  split; [repeat split; assumption|].
  exact (HS Hread HeqS HnanS).
Defined.




(** C5.  The output of [mapData] has the length of the input and its i-th
    record is derived from the i-th input record: in the Vue components,
    which return whenever every scale field can be converted, it keeps that
    record in [raw] and carries its converted scale and its name; in the
    script, which returns whenever every element can be read and its scale
    converted, it carries the record's [scale] and [fundname]. *)
Theorem mapData_length_order (ts : R -> string)
    (pA : TreeMapA.Props) (pB : TreeMapB.Props) (src : list jsval) :
  (forall out, TreeMapA.mapData ts pA (Some src) = Ok out ->
     List.length out = List.length src /\
     forall i d, nth_error src i = Some d ->
       exists it, nth_error out i = Some it /\
                  TreeMapA.raw it = d /\
                  TreeMapA.value it = TreeMapA.scaleVal pA d /\
                  TreeMapA.name it = TreeMapA.nameVal pA d) /\
  (Forall (fun d => convertible (TreeMapA.scaleField pA d)) src ->
   exists out, TreeMapA.mapData ts pA (Some src) = Ok out) /\
  (forall out, TreeMapB.mapData ts pB (Some src) = Ok out ->
     List.length out = List.length src /\
     forall i d, nth_error src i = Some d ->
       exists it, nth_error out i = Some it /\
                  TreeMapB.raw it = d /\
                  TreeMapB.value it = TreeMapB.scaleVal pB d /\
                  TreeMapB.name it = TreeMapB.nameVal pB d) /\
  (Forall (fun d => convertible (TreeMapB.scaleField pB d)) src ->
   exists out, TreeMapB.mapData ts pB (Some src) = Ok out) /\
  (Forall processable src ->
   exists out, Script.mapData ts src = Ok out /\
     List.length out = List.length src /\
     forall i d, nth_error src i = Some d ->
       exists it, nth_error out i = Some it /\
                  Script.value it = Val.get_opt d "scale" /\
                  Script.name it = Val.get_opt d "fundname") /\
  (forall out, Script.mapData ts src = Ok out ->
               List.length out = List.length src).
Proof.
  split; [|split; [|split; [|split; [|split]]]].
  - intros out Hout. split; [exact (A_mapData_length ts pA src out Hout)|].
    intros i d Hd.
    destruct (A_mapData_nth ts pA src out i d Hout Hd)
      as (it & Hit & Hraw & Hv & _ & Hn & _).
    exists it. auto.
  - intros Hsrc. eexists. exact (A_mapData_returns ts pA src Hsrc).
  - intros out Hout. split; [exact (B_mapData_length ts pB src out Hout)|].
    intros i d Hd.
    destruct (B_mapData_nth ts pB src out i d Hout Hd)
      as (it & Hit & Hraw & Hv & _ & Hn & _).
    exists it. auto.
  - intros Hsrc. eexists. exact (B_mapData_returns ts pB src Hsrc).
  - intros Hsrc. eexists. split; [apply script_mapData_readable, Hsrc|].
    split; [apply length_map|].
    intros i d Hd. rewrite nth_error_map, Hd. cbn [option_map].
    eexists. split; [reflexivity|]. split; reflexivity.
  - intros out Hout.
    pose proof (script_mapData_Ok_readable ts src out Hout) as Hsrc.
    rewrite (script_mapData_readable ts src Hsrc) in Hout.
    injection Hout as <-. apply length_map.
Qed.

Lemma mapData_length_order_witness :
  Forall processable scenario /\
  exists out, Script.mapData Number_toString_any scenario = Ok out /\
              List.length out = 4%nat.
Proof.
  assert (Hsrc : Forall processable scenario) by (repeat constructor).
  split; [exact Hsrc|].
  destruct (mapData_length_order Number_toString_any propsA propsB scenario)
    as (_ & _ & _ & _ & H & _).
  destruct (H Hsrc) as (out & Hout & Hlen & _).
  exists out. split; [exact Hout | exact Hlen].
Defined.

(** C6.  On the empty sequence every variant of [mapData] returns the empty
    sequence and does not throw.  In the script [Math.min] and [Math.max]
    are applied to no argument and give [+Infinity] and [-Infinity]; no
    alpha is computed. *)
Theorem mapData_empty (ts : R -> string)
    (pA : TreeMapA.Props) (pB : TreeMapB.Props) :
  Script.mapData ts [] = Ok [] /\
  TreeMapA.mapData ts pA (Some []) = Ok [] /\
  TreeMapB.mapData ts pB (Some []) = Ok [] /\
  TreeMapA.mapData ts pA None = Ok [] /\
  TreeMapB.mapData ts pB None = Ok [] /\
  JS.Math_min [] = PInf /\ JS.Math_max [] = NInf /\
  Script.alphas [] = Ok [] /\
  TreeMapA.alphas pA [] = [] /\ TreeMapB.alphas pB [] = [].
Proof. repeat split. Qed.

(** C7.  On the four records A, B, C, D with scales 200, 150, 100, 50 every
    variant computes the alphas 0.9, 0.8, 0.6, 0.5: strictly increasing with
    the scale, exactly 0.5 for the minimum D and exactly 0.9 for the
    maximum A.  The colour strings carry them with three decimals. *)
Theorem scenario_alphas_increasing :
  Script.alphas scenario = Ok [Fin 0.9; Fin 0.8; Fin 0.6; Fin 0.5] /\
  TreeMapA.alphas propsA scenario = [Fin 0.9; Fin 0.8; Fin 0.6; Fin 0.5] /\
  TreeMapB.alphas propsB scenario = [Fin 0.9; Fin 0.8; Fin 0.6; Fin 0.5] /\
  (JS.lt (Fin 0.5) (Fin 0.6) = true /\ JS.lt (Fin 0.6) (Fin 0.8) = true /\
   JS.lt (Fin 0.8) (Fin 0.9) = true) /\
  forall ts,
    exists out,
      TreeMapA.mapData ts propsA (Some scenario) = Ok out /\
      map (fun it => TreeMapA.color (TreeMapA.itemStyle it)) out =
      ["rgba(87, 129, 253, 0.900)"; "rgba(87, 129, 253, 0.800)";
       "rgba(87, 129, 253, 0.600)"; "rgba(87, 129, 253, 0.500)"].
Proof.
  split; [exact scenario_alphas_script|].
  split; [exact scenario_alphas_A|].
  split; [exact scenario_alphas_B|].
  split.
  - repeat split; apply lt_Fin_true; lra.
  - intros ts.
    assert (Hout : TreeMapA.mapData ts propsA (Some scenario) =
                   Ok (map (itemA ts propsA
                              (JS.Math_min (TreeMapA.scales propsA scenario))
                              (JS.Math_max (TreeMapA.scales propsA scenario)))
                           scenario))
      by (apply A_mapData_returns; repeat constructor).
    eexists. split; [exact Hout|].
    rewrite (A_mapData_colors ts propsA scenario _ Hout), scenario_alphas_A.
    cbn [map].
    destruct (rgba_examples ts) as (H9 & H8 & H6 & H5 & _).
    change TreeMapA.BASE_RGB with Script.BASE_RGB.
    now rewrite H9, H8, H6, H5.
Qed.

(** C8.  In the second component the output of [mapData] does not depend
    on the [format] property: for any two formats the records, and so their
    [value] fields and colour strings, are the same, and so are the scales
    and the alphas.  [formatScale], which the tooltip calls when it is
    displayed, is where [format] is read. *)
Theorem mapData_format_independent (ts : R -> string)
    (p : TreeMapB.Props) (f1 f2 : string) (src : option (list jsval)) :
  TreeMapB.mapData ts (with_format p f1) src =
  TreeMapB.mapData ts (with_format p f2) src /\
  (forall l, TreeMapB.scales (with_format p f1) l =
             TreeMapB.scales (with_format p f2) l) /\
  (forall l, TreeMapB.alphas (with_format p f1) l =
             TreeMapB.alphas (with_format p f2) l) /\
  (forall fb dp fc n,
     TreeMapB.formatScale fb dp fc (with_format p "large") (VNum n) = fb (VNum n) /\
     TreeMapB.formatScale fb dp fc (with_format p "percent") (VNum n) = dp (VNum n) /\
     TreeMapB.formatScale fb dp fc (with_format p "currency") (VNum n) = fc (VNum n) /\
     TreeMapB.formatScale fb dp fc (with_format p "") (VNum n) = VNum n).
Proof. repeat split. Qed.

(** C9.  The three copies of [computeAlpha] (the script and the two Vue
    components) return the same alpha for every triple of arguments. *)
Theorem computeAlpha_variants_agree (scale min max : jsnum) :
  Script.computeAlpha scale min max = TreeMapA.computeAlpha scale min max /\
  TreeMapA.computeAlpha scale min max = TreeMapB.computeAlpha scale min max.
Proof. split; reflexivity. Qed.



(** * Further properties of the code *)

(** ** When [computeAlpha] is [NaN] *)

Lemma alpha_of_lin_nan (lin : jsnum) : alpha_of_lin lin = NaN <-> lin = NaN.
Proof.
  unfold alpha_of_lin. destruct lin; simpl; split; intros H;
    try reflexivity; discriminate.
Qed.

Lemma overflow_not_nan (r : R) : JS.overflow r <> NaN.
Proof.
  unfold JS.overflow.
  destruct (Rle_dec JS.huge r); [discriminate|].
  destruct (Rle_dec r (- JS.huge)); discriminate.
Qed.

Lemma div_nan_iff (x y : jsnum) :
  y <> Fin 0 ->
  JS.div x y = NaN <-> x = NaN \/ y = NaN \/ (infinite x /\ infinite y).
Proof.
  intros Hy. unfold infinite.
  destruct x as [| | |a], y as [| | |b]; simpl;
    try (split; [intros _; tauto | reflexivity]);
    try (split; [discriminate | intros [H|[H|[[H|H] [H'|H']]]]; discriminate]);
    try (split; [intros _; right; right; split; [now left | now right]
                | reflexivity]);
    try (split; [intros _; right; right; split; [now right | now left]
                | reflexivity]);
    try (split; [intros _; right; right; split; now left | reflexivity]);
    try (split; [intros _; right; right; split; now right | reflexivity]).
  - destruct (Rlt_dec b 0);
      (split; [discriminate | intros [H|[H|[[H|H] [H'|H']]]]; discriminate]).
  - destruct (Rlt_dec b 0);
      (split; [discriminate | intros [H|[H|[[H|H] [H'|H']]]]; discriminate]).
  - destruct (Req_dec_T b 0) as [->|Hb]; [contradiction|].
    split; [intros H; now destruct (overflow_not_nan _ H)
           | intros [H|[H|[[H|H] [H'|H']]]]; discriminate].
Qed.

Lemma computeAlpha_nan_lin (scale min max : jsnum) :
  Script.computeAlpha scale min max = NaN <->
  JS.strict_eq max min = false /\ lin_undefined scale min max.
Proof.
  rewrite computeAlpha_unfold. unfold lin_undefined.
  destruct (JS.strict_eq max min) eqn:E.
  - split; [discriminate | intros [H _]; discriminate].
  - rewrite alpha_of_lin_nan, (div_nan_iff _ _ (divisor_not_zero min max E)).
    tauto.
Qed.

Lemma computeAlpha_collapse (scale min max : jsnum) :
  JS.strict_eq max min = false ->
  finite (JS.sub scale min) -> infinite (JS.sub max min) ->
  Script.computeAlpha scale min max = Fin 0.5.
Proof.
  intros E Hs Hm. rewrite computeAlpha_unfold, E.
  destruct (JS.sub scale min) as [| | |a]; try contradiction.
  destruct Hm as [-> | ->]; simpl; unfold alpha_of_lin, clamp01;
    rewrite clamp_id by lra; now rewrite ease_0.
Qed.

(** X1.  [computeAlpha] returns [NaN] exactly when [max !== min] and the
    linear position is undefined: [scale - min] or [max - min] is [NaN], or
    both are infinite.  When only [max - min] is infinite the result
    collapses to [MIN_ALPHA], whatever the scale. *)
Theorem computeAlpha_nan_exactly (scale min max : jsnum) :
  (Script.computeAlpha scale min max = NaN <->
   JS.strict_eq max min = false /\ lin_undefined scale min max) /\
  (TreeMapA.computeAlpha scale min max = NaN <->
   JS.strict_eq max min = false /\ lin_undefined scale min max) /\
  (TreeMapB.computeAlpha scale min max = NaN <->
   JS.strict_eq max min = false /\ lin_undefined scale min max) /\
  (JS.strict_eq max min = false ->
   finite (JS.sub scale min) -> infinite (JS.sub max min) ->
   Script.computeAlpha scale min max = Script.MIN_ALPHA /\
   TreeMapA.computeAlpha scale min max = TreeMapA.MIN_ALPHA /\
   TreeMapB.computeAlpha scale min max = TreeMapB.MIN_ALPHA).
Proof.
  pose proof (computeAlpha_nan_lin scale min max) as H.
  split; [exact H|]. split; [exact H|]. split; [exact H|].
  intros E Hs Hm.
  pose proof (computeAlpha_collapse scale min max E Hs Hm) as Hc.
  repeat split; exact Hc.
Qed.

Lemma computeAlpha_nan_exactly_witness :
  (JS.strict_eq PInf (Fin 1) = false /\ finite (JS.sub (Fin 3) (Fin 1)) /\
   infinite (JS.sub PInf (Fin 1))) /\
  TreeMapA.computeAlpha (Fin 3) (Fin 1) PInf = TreeMapA.MIN_ALPHA.
Proof.
  assert (H1 : JS.strict_eq PInf (Fin 1) = false) by reflexivity.
  assert (H2 : finite (JS.sub (Fin 3) (Fin 1))).
  { pose proof huge_large. apply finite_sub_Fin. lra. }
  assert (H3 : infinite (JS.sub PInf (Fin 1))) by (left; reflexivity).
  split; [repeat split; assumption|].
  destruct (computeAlpha_nan_exactly (Fin 3) (Fin 1) PInf) as (_ & _ & _ & H).
  exact (proj1 (proj2 (H H1 H2 H3))).
Defined.

(** ** Saturation and end points *)

Lemma fold_min_In (l : list jsnum) (acc : jsnum) :
  In (fold_left min_step l acc) (acc :: l).
Proof.
  revert acc. induction l as [|x l IH]; intros acc; [now left|].
  simpl fold_left. destruct (IH (min_step acc x)) as [H|H].
  - rewrite <- H. unfold min_step.
    destruct (JS.lt x acc); [right; left | left]; reflexivity.
  - right; right; exact H.
Qed.

Lemma fold_max_In (l : list jsnum) (acc : jsnum) :
  In (fold_left max_step l acc) (acc :: l).
Proof.
  revert acc. induction l as [|x l IH]; intros acc; [now left|].
  simpl fold_left. destruct (IH (max_step acc x)) as [H|H].
  - rewrite <- H. unfold max_step.
    destruct (JS.lt acc x); [right; left | left]; reflexivity.
  - right; right; exact H.
Qed.

(** Over a list with a finite range, [Math.min] and [Math.max] are numbers
    of the list. *)
Lemma finite_range_attained (l : list jsnum) :
  finite (JS.sub (JS.Math_max l) (JS.Math_min l)) ->
  In (JS.Math_min l) l /\ In (JS.Math_max l) l.
Proof.
  intros Hfin.
  destruct (finite_range_inv l Hfin) as (_ & _ & mn & mx & Hmin & Hmax & _).
  pose proof Hmin as Hmin'. pose proof Hmax as Hmax'.
  unfold JS.Math_min in Hmin'. unfold JS.Math_max in Hmax'.
  destruct (existsb JS.is_nan l); [discriminate|].
  split.
  - rewrite Hmin. rewrite <- Hmin'.
    destruct (fold_min_In l PInf) as [E|H]; [|exact H].
    change (fold_left min_step l PInf = Fin mn) in Hmin'.
    rewrite <- E in Hmin'. discriminate.
  - rewrite Hmax. rewrite <- Hmax'.
    destruct (fold_max_In l NInf) as [E|H]; [|exact H].
    change (fold_left max_step l NInf = Fin mx) in Hmax'.
    rewrite <- E in Hmax'. discriminate.
Qed.

Lemma computeAlpha_saturates (mn mx : R) (s : jsnum) :
  mn < mx -> mx - mn < JS.huge ->
  (JS.le (Fin mx) s = true -> Script.computeAlpha s (Fin mn) (Fin mx) = Fin 0.9) /\
  (JS.le s (Fin mn) = true -> Script.computeAlpha s (Fin mn) (Fin mx) = Fin 0.5).
Proof.
  intros Hlt Hrange. split; intros Hs.
  - assert (Hn : JS.is_nan s = false) by (destruct s; [discriminate|..]; reflexivity).
    rewrite computeAlpha_position by assumption.
    destruct s as [| | |r]; try discriminate; simpl position.
    + now rewrite ease_1.
    + apply le_Fin_iff in Hs. rewrite clamp_high by (apply div_ge_1; lra).
      now rewrite ease_1.
  - assert (Hn : JS.is_nan s = false) by (destruct s; [discriminate|..]; reflexivity).
    rewrite computeAlpha_position by assumption.
    destruct s as [| | |r]; try discriminate; simpl position.
    + now rewrite ease_0.
    + apply le_Fin_iff in Hs. rewrite clamp_low by (apply div_le_0; lra).
      now rewrite ease_0.
Qed.

Lemma strict_eq_false_Fin (mn mx : R) :
  JS.strict_eq (Fin mx) (Fin mn) = false -> mx <> mn.
Proof.
  simpl. destruct (Req_dec_T mx mn); [discriminate | auto].
Qed.

(** In a list with a finite range and [max !== min], the maximum gets
    [MAX_ALPHA] and the minimum [MIN_ALPHA], and both occur. *)
Lemma alphas_of_endpoints (l : list jsnum) :
  finite (JS.sub (JS.Math_max l) (JS.Math_min l)) ->
  JS.strict_eq (JS.Math_max l) (JS.Math_min l) = false ->
  exists i j,
    nth_error l i = Some (JS.Math_max l) /\
    nth_error (alphas_of l) i = Some (Fin 0.9) /\
    nth_error l j = Some (JS.Math_min l) /\
    nth_error (alphas_of l) j = Some (Fin 0.5).
Proof.
  intros Hfin Hne.
  destruct (finite_range_attained l Hfin) as [Hmin Hmax].
  destruct (finite_range_inv l Hfin)
    as (_ & _ & mn & mx & Emin & Emax & Hrange & Hbounds).
  destruct (In_nth_error _ _ Hmax) as [i Hi].
  destruct (In_nth_error _ _ Hmin) as [j Hj].
  exists i, j. unfold alphas_of. rewrite !nth_error_map, Hi, Hj.
  rewrite Emin, Emax in *. cbn [option_map].
  pose proof (strict_eq_false_Fin _ _ Hne) as Hd.
  assert (Hlt : mn < mx).
  { pose proof (Hbounds mn Hmin). lra. }
  destruct (computeAlpha_saturates mn mx (Fin mx) Hlt) as [Hhi _]; [lra|].
  destruct (computeAlpha_saturates mn mx (Fin mn) Hlt) as [_ Hlo]; [lra|].
  rewrite Hhi by (apply le_Fin_iff; lra).
  rewrite Hlo by (apply le_Fin_iff; lra).
  repeat split.
Qed.

(** X2.  Between finite [min < max] whose difference does not overflow,
    [computeAlpha] saturates: a scale at or above [max] gets [MAX_ALPHA] and
    one at or below [min] gets [MIN_ALPHA].  So in every call of [mapData]
    with a finite range and [max !== min], the whole band is used: a record
    with the largest scale gets exactly 0.9 and one with the smallest
    exactly 0.5. *)
Theorem alpha_saturates_at_ends
    (pA : TreeMapA.Props) (pB : TreeMapB.Props)
    (mn mx : R) (s : jsnum) (src : list jsval) :
  (mn < mx -> mx - mn < JS.huge ->
   (JS.le (Fin mx) s = true ->
    Script.computeAlpha s (Fin mn) (Fin mx) = Script.MAX_ALPHA /\
    TreeMapA.computeAlpha s (Fin mn) (Fin mx) = TreeMapA.MAX_ALPHA /\
    TreeMapB.computeAlpha s (Fin mn) (Fin mx) = TreeMapB.MAX_ALPHA) /\
   (JS.le s (Fin mn) = true ->
    Script.computeAlpha s (Fin mn) (Fin mx) = Script.MIN_ALPHA /\
    TreeMapA.computeAlpha s (Fin mn) (Fin mx) = TreeMapA.MIN_ALPHA /\
    TreeMapB.computeAlpha s (Fin mn) (Fin mx) = TreeMapB.MIN_ALPHA)) /\
  (finite (JS.sub (JS.Math_max (TreeMapA.scales pA src))
                  (JS.Math_min (TreeMapA.scales pA src))) ->
   JS.strict_eq (JS.Math_max (TreeMapA.scales pA src))
                (JS.Math_min (TreeMapA.scales pA src)) = false ->
   exists i j,
     nth_error (TreeMapA.scales pA src) i = Some (JS.Math_max (TreeMapA.scales pA src)) /\
     nth_error (TreeMapA.alphas pA src) i = Some TreeMapA.MAX_ALPHA /\
     nth_error (TreeMapA.scales pA src) j = Some (JS.Math_min (TreeMapA.scales pA src)) /\
     nth_error (TreeMapA.alphas pA src) j = Some TreeMapA.MIN_ALPHA) /\
  (finite (JS.sub (JS.Math_max (TreeMapB.scales pB src))
                  (JS.Math_min (TreeMapB.scales pB src))) ->
   JS.strict_eq (JS.Math_max (TreeMapB.scales pB src))
                (JS.Math_min (TreeMapB.scales pB src)) = false ->
   exists i j,
     nth_error (TreeMapB.scales pB src) i = Some (JS.Math_max (TreeMapB.scales pB src)) /\
     nth_error (TreeMapB.alphas pB src) i = Some TreeMapB.MAX_ALPHA /\
     nth_error (TreeMapB.scales pB src) j = Some (JS.Math_min (TreeMapB.scales pB src)) /\
     nth_error (TreeMapB.alphas pB src) j = Some TreeMapB.MIN_ALPHA) /\
  (Forall readable src ->
   finite (JS.sub (JS.Math_max (script_scales src))
                  (JS.Math_min (script_scales src))) ->
   JS.strict_eq (JS.Math_max (script_scales src))
                (JS.Math_min (script_scales src)) = false ->
   exists al i j,
     Script.alphas src = Ok al /\
     nth_error (script_scales src) i = Some (JS.Math_max (script_scales src)) /\
     nth_error al i = Some Script.MAX_ALPHA /\
     nth_error (script_scales src) j = Some (JS.Math_min (script_scales src)) /\
     nth_error al j = Some Script.MIN_ALPHA).
Proof.
  split; [|split; [|split]].
  - intros Hlt Hrange.
    destruct (computeAlpha_saturates mn mx s Hlt Hrange) as [Hhi Hlo].
    split; intros Hs; [specialize (Hhi Hs) | specialize (Hlo Hs)];
      repeat split; assumption.
  - intros Hfin Hne. exact (alphas_of_endpoints _ Hfin Hne).
  - intros Hfin Hne. exact (alphas_of_endpoints _ Hfin Hne).
  - intros Hread Hfin Hne.
    destruct (alphas_of_endpoints _ Hfin Hne) as (i & j & H).
    exists (alphas_of (script_scales src)), i, j.
    split; [|exact H].
    exact (script_alphas_readable src
             (finite_range_processable src Hread (or_intror Hfin))).
Qed.

Lemma alpha_saturates_at_ends_witness :
  (50 < 200 /\ 200 - 50 < JS.huge /\ JS.le (Fin 200) (Fin 500) = true) /\
  TreeMapA.computeAlpha (Fin 500) (Fin 50) (Fin 200) = TreeMapA.MAX_ALPHA /\
  (finite (JS.sub (JS.Math_max (TreeMapA.scales propsA scenario))
                  (JS.Math_min (TreeMapA.scales propsA scenario))) /\
   JS.strict_eq (JS.Math_max (TreeMapA.scales propsA scenario))
                (JS.Math_min (TreeMapA.scales propsA scenario)) = false) /\
  exists i j,
    nth_error (TreeMapA.alphas propsA scenario) i = Some TreeMapA.MAX_ALPHA /\
    nth_error (TreeMapA.alphas propsA scenario) j = Some TreeMapA.MIN_ALPHA.
Proof.
  pose proof huge_large as Hh.
  assert (H1 : 50 < 200) by lra.
  assert (H2 : 200 - 50 < JS.huge) by lra.
  assert (H3 : JS.le (Fin 200) (Fin 500) = true) by (apply le_Fin_iff; lra).
  assert (H4 : finite (JS.sub (JS.Math_max (TreeMapA.scales propsA scenario))
                              (JS.Math_min (TreeMapA.scales propsA scenario)))).
  { rewrite scenario_scales_A, scenario_min, scenario_max.
    apply finite_sub_Fin. lra. }
  assert (H5 : JS.strict_eq (JS.Math_max (TreeMapA.scales propsA scenario))
                 (JS.Math_min (TreeMapA.scales propsA scenario)) = false).
  { rewrite scenario_scales_A, scenario_min, scenario_max. simpl.
    destruct (Req_dec_T 200 50); [lra | reflexivity]. }
  destruct (alpha_saturates_at_ends propsA propsB 50 200 (Fin 500) scenario)
    as (Ha & Hb & _).
  split; [repeat split; assumption|].
  split; [exact (proj1 (proj2 (proj1 (Ha H1 H2) H3)))|].
  split; [split; assumption|].
  destruct (Hb H4 H5) as (i & j & _ & Hi & _ & Hj).
  exists i, j. split; assumption.
Defined.

(** ** The order of the records *)

(** The order of the records does not matter to [Math.min] and [Math.max]. *)
Lemma min_step_swap (a x y : jsnum) :
  min_step (min_step a x) y = min_step (min_step a y) x.
Proof.
  unfold min_step.
  destruct a as [| | |a], x as [| | |x], y as [| | |y]; cbn [JS.lt];
    try reflexivity;
    repeat match goal with
    | |- context [Rlt_dec ?a ?b] => destruct (Rlt_dec a b); cbn [JS.lt]
    end; try reflexivity; try (f_equal; lra); exfalso; lra.
Qed.

Lemma max_step_swap (a x y : jsnum) :
  max_step (max_step a x) y = max_step (max_step a y) x.
Proof.
  unfold max_step.
  destruct a as [| | |a], x as [| | |x], y as [| | |y]; cbn [JS.lt];
    try reflexivity;
    repeat match goal with
    | |- context [Rlt_dec ?a ?b] => destruct (Rlt_dec a b); cbn [JS.lt]
    end; try reflexivity; try (f_equal; lra); exfalso; lra.
Qed.

Lemma fold_left_Permutation {A B : Type} (f : A -> B -> A) (l l' : list B) :
  (forall a x y, f (f a x) y = f (f a y) x) ->
  Permutation l l' -> forall a, fold_left f l a = fold_left f l' a.
Proof.
  intros Hf HP. induction HP; intros a; cbn [fold_left].
  - reflexivity.
  - apply IHHP.
  - now rewrite Hf.
  - now rewrite IHHP1.
Qed.

Lemma existsb_Permutation {A : Type} (p : A -> bool) (l l' : list A) :
  Permutation l l' -> existsb p l = existsb p l'.
Proof.
  intros HP. induction HP; cbn [existsb].
  - reflexivity.
  - now rewrite IHHP.
  - destruct (p x), (p y); reflexivity.
  - congruence.
Qed.

Lemma Math_min_max_Permutation (l l' : list jsnum) :
  Permutation l l' ->
  JS.Math_min l = JS.Math_min l' /\ JS.Math_max l = JS.Math_max l'.
Proof.
  intros HP. unfold JS.Math_min, JS.Math_max.
  rewrite (existsb_Permutation JS.is_nan l l' HP).
  destruct (existsb JS.is_nan l'); [split; reflexivity|].
  split.
  - exact (fold_left_Permutation min_step l l' min_step_swap HP PInf).
  - exact (fold_left_Permutation max_step l l' max_step_swap HP NInf).
Qed.

Lemma not_readable_nullish (d : jsval) : ~ readable d <-> nullish d.
Proof.
  unfold nullish. destruct d; simpl; split; intros H;
    try tauto; try (destruct H; discriminate); try (exfalso; apply H; exact I).
Qed.

Lemma readable_dec (d : jsval) : {readable d} + {~ readable d}.
Proof. destruct d; simpl; (now left) || (right; intros []). Qed.

Lemma convertible_dec (v : jsval) : {convertible v} + {~ convertible v}.
Proof.
  unfold convertible. destruct (Val.throws v); [right; discriminate | now left].
Qed.

Lemma processable_dec (d : jsval) : {processable d} + {~ processable d}.
Proof.
  unfold processable.
  destruct (readable_dec d) as [Hr|Hr]; [|right; tauto].
  destruct (convertible_dec (Val.get_opt d "scale")) as [Hc|Hc];
    [left; tauto | right; tauto].
Qed.

(** The script returns the item of each record when every record can be
    processed, and throws otherwise. *)
Lemma script_mapData_result (ts : R -> string) (src : list jsval) :
  (Forall processable src /\
   Script.mapData ts src =
   Ok (map (script_item ts (JS.Math_min (script_scales src))
                           (JS.Math_max (script_scales src))) src)) \/
  ((exists d, In d src /\ ~ processable d) /\
   Script.mapData ts src = Throw TypeError).
Proof.
  destruct (Forall_Exists_dec processable processable_dec src) as [H|H].
  - left. split; [exact H|]. now apply script_mapData_readable.
  - right. apply Exists_exists in H. destruct H as (d & Hd & Hn).
    split; [now exists d|].
    exact (script_mapData_throws ts src d Hd Hn).
Qed.

(** X6.  The order of the records only decides the order of the items:
    [mapData] of a rearranged input returns a rearrangement of the same
    items, colours included; when [mapData] throws on an input it throws on
    every rearrangement of it. *)
Theorem mapData_order_free
    (ts : R -> string) (pA : TreeMapA.Props) (pB : TreeMapB.Props)
    (src src' : list jsval) :
  Permutation src src' ->
  (forall out, TreeMapA.mapData ts pA (Some src) = Ok out ->
     exists out', TreeMapA.mapData ts pA (Some src') = Ok out' /\
                  Permutation out out') /\
  (TreeMapA.mapData ts pA (Some src) = Throw TypeError ->
   TreeMapA.mapData ts pA (Some src') = Throw TypeError) /\
  (forall out, TreeMapB.mapData ts pB (Some src) = Ok out ->
     exists out', TreeMapB.mapData ts pB (Some src') = Ok out' /\
                  Permutation out out') /\
  (TreeMapB.mapData ts pB (Some src) = Throw TypeError ->
   TreeMapB.mapData ts pB (Some src') = Throw TypeError) /\
  (forall out, Script.mapData ts src = Ok out ->
     exists out', Script.mapData ts src' = Ok out' /\ Permutation out out') /\
  (Script.mapData ts src = Throw TypeError ->
   Script.mapData ts src' = Throw TypeError).
Proof.
  intros HP. split; [|split; [|split; [|split; [|split]]]].
  - intros out Hout. destruct (A_mapData_Ok ts pA src out Hout) as [-> Hc].
    eexists. split.
    + apply A_mapData_returns. exact (Permutation_Forall HP Hc).
    + destruct (Math_min_max_Permutation (TreeMapA.scales pA src)
                  (TreeMapA.scales pA src')) as [-> ->].
      { unfold TreeMapA.scales. now apply Permutation_map. }
      now apply Permutation_map.
  - rewrite !A_mapData_throws. intros (d & Hd & Hn).
    exists d. split; [exact (Permutation_in d HP Hd) | exact Hn].
  - intros out Hout. destruct (B_mapData_Ok ts pB src out Hout) as [-> Hc].
    eexists. split.
    + apply B_mapData_returns. exact (Permutation_Forall HP Hc).
    + destruct (Math_min_max_Permutation (TreeMapB.scales pB src)
                  (TreeMapB.scales pB src')) as [-> ->].
      { unfold TreeMapB.scales. now apply Permutation_map. }
      now apply Permutation_map.
  - rewrite !B_mapData_throws. intros (d & Hd & Hn).
    exists d. split; [exact (Permutation_in d HP Hd) | exact Hn].
  - intros out Hout.
    pose proof (script_mapData_Ok_readable ts src out Hout) as Hr.
    pose proof (Permutation_Forall HP Hr) as Hr'.
    rewrite (script_mapData_readable ts src Hr) in Hout. injection Hout as <-.
    eexists. split; [exact (script_mapData_readable ts src' Hr')|].
    destruct (Math_min_max_Permutation (script_scales src) (script_scales src'))
      as [-> ->].
    { unfold script_scales. now apply Permutation_map. }
    now apply Permutation_map.
  - intros Hthrow.
    destruct (script_mapData_result ts src) as [[_ E]|[(d & Hd & Hn) _]];
      [congruence|].
    exact (script_mapData_throws ts src' d (Permutation_in d HP Hd) Hn).
Qed.

Lemma mapData_order_free_witness :
  Permutation scenario (rev scenario) /\
  exists out out',
    TreeMapA.mapData Number_toString_any propsA (Some scenario) = Ok out /\
    TreeMapA.mapData Number_toString_any propsA (Some (rev scenario)) = Ok out' /\
    Permutation out out'.
Proof.
  pose proof (Permutation_rev scenario) as HP.
  split; [exact HP|].
  assert (Hout : exists out,
             TreeMapA.mapData Number_toString_any propsA (Some scenario) = Ok out).
  { eexists. apply A_mapData_returns. repeat constructor. }
  destruct Hout as [out Hout].
  destruct (proj1 (mapData_order_free Number_toString_any propsA propsB
                     scenario (rev scenario) HP) out Hout) as (out' & Hout' & Hperm).
  now exists out, out'.
Defined.

(** ** The update hook of the script *)

Lemma not_processable_iff (d : jsval) :
  ~ processable d <-> nullish d \/ ~ convertible (Val.get_opt d "scale").
Proof.
  unfold processable. rewrite <- not_readable_nullish.
  destruct (readable_dec d), (convertible_dec (Val.get_opt d "scale")); tauto.
Qed.

Lemma processable_iff (d : jsval) :
  processable d <-> ~ nullish d /\ convertible (Val.get_opt d "scale").
Proof.
  unfold processable. rewrite <- not_readable_nullish.
  destruct (readable_dec d); tauto.
Qed.

(** X7.  [window.updateTreemap] never leaves the chart half updated.  It
    ends with a [TypeError] before any call on the chart exactly when a
    record of its argument is [null] or [undefined], or has a scale that
    cannot be converted to a number; otherwise it makes exactly one call of
    [setOption], with one item for each record. *)
Theorem updateTreemap_all_or_nothing (ts : R -> string) (src : list jsval) :
  ((exists d, In d src /\
              (nullish d \/ ~ convertible (Val.get_opt d "scale"))) <->
   ScriptView.updateTreemap ts src = ([], Some TypeError)) /\
  ((forall d, In d src ->
              ~ nullish d /\ convertible (Val.get_opt d "scale")) <->
   exists data,
     ScriptView.updateTreemap ts src = ([ScriptView.setOption data], None) /\
     Script.mapData ts src = Ok data /\
     List.length data = List.length src).
Proof.
  unfold ScriptView.updateTreemap.
  destruct (script_mapData_result ts src) as [[Hr E]|[(d & Hd & Hn) E]];
    rewrite E; split; split.
  - intros (d & Hd & Hn). rewrite Forall_forall in Hr.
    apply not_processable_iff in Hn. elim Hn. now apply Hr.
  - discriminate.
  - intros _. eexists. split; [reflexivity|]. split; [reflexivity|].
    apply length_map.
  - intros _ d Hd. rewrite Forall_forall in Hr.
    apply processable_iff. now apply Hr.
  - reflexivity.
  - intros _. exists d. split; [exact Hd|]. now apply not_processable_iff.
  - intros H. elim Hn. apply processable_iff. now apply H.
  - intros (data & H & _). discriminate.
Qed.

(** ** The script and the components on the same records *)

Lemma or_else_id (x : jsnum) :
  JS.is_nan x = false -> JS.or_else x (Fin 0) = x.
Proof.
  intros H. unfold JS.or_else, JS.truthy.
  destruct x as [| | |r]; try reflexivity; [discriminate|].
  destruct (Req_dec_T r 0) as [->|_]; reflexivity.
Qed.

Lemma plain_scales_A (p : TreeMapA.Props) (src : list jsval) :
  Val.str_or (TreeMapA.scaleKey p) "scale" = "scale" ->
  Forall plain_scale src -> TreeMapA.scales p src = script_scales src.
Proof.
  intros Hk H. rewrite Forall_forall in H.
  unfold TreeMapA.scales, script_scales. rewrite Hk.
  apply map_ext_in. intros d Hd. apply or_else_id. exact (proj2 (H d Hd)).
Qed.

Lemma plain_scales_B (p : TreeMapB.Props) (src : list jsval) :
  Val.str_or (TreeMapB.scaleKey p) "scale" = "scale" ->
  Forall plain_scale src -> TreeMapB.scales p src = script_scales src.
Proof.
  intros Hk H. rewrite Forall_forall in H.
  unfold TreeMapB.scales, script_scales. rewrite Hk.
  apply map_ext_in. intros d Hd. apply or_else_id. exact (proj2 (H d Hd)).
Qed.

Lemma plain_processable (src : list jsval) :
  Forall plain_scale src -> Forall processable src.
Proof.
  apply Forall_impl. intros d [Hr Hn]. split; [exact Hr|].
  now apply not_nan_convertible.
Qed.

(** X8.  On records that can be read and whose field [scale] converts to a
    number, the script and the two components, reading the key [scale],
    return, compute the same alphas and write the same colours. *)
Theorem script_and_components_agree
    (ts : R -> string) (pA : TreeMapA.Props) (pB : TreeMapB.Props)
    (src : list jsval) :
  Val.str_or (TreeMapA.scaleKey pA) "scale" = "scale" ->
  Val.str_or (TreeMapB.scaleKey pB) "scale" = "scale" ->
  Forall plain_scale src ->
  Script.alphas src = Ok (TreeMapA.alphas pA src) /\
  TreeMapB.alphas pB src = TreeMapA.alphas pA src /\
  exists out outA outB,
    Script.mapData ts src = Ok out /\
    TreeMapA.mapData ts pA (Some src) = Ok outA /\
    TreeMapB.mapData ts pB (Some src) = Ok outB /\
    map (fun it => Script.color (Script.itemStyle it)) out =
    map (fun it => TreeMapA.color (TreeMapA.itemStyle it)) outA /\
    map (fun it => Script.color (Script.itemStyle it)) out =
    map (fun it => TreeMapB.color (TreeMapB.itemStyle it)) outB.
Proof.
  intros HA HB H.
  pose proof (plain_processable src H) as Hr.
  assert (EA : TreeMapA.alphas pA src = alphas_of (script_scales src)).
  { change (alphas_of (TreeMapA.scales pA src) = alphas_of (script_scales src)).
    now rewrite plain_scales_A. }
  assert (EB : TreeMapB.alphas pB src = alphas_of (script_scales src)).
  { change (alphas_of (TreeMapB.scales pB src) = alphas_of (script_scales src)).
    now rewrite plain_scales_B. }
  assert (ES : Script.alphas src = Ok (alphas_of (script_scales src))).
  { exact (script_alphas_readable src Hr). }
  assert (HcA : Forall (fun d => convertible (TreeMapA.scaleField pA d)) src).
  { revert Hr. apply Forall_impl. intros d [_ Hc].
    unfold TreeMapA.scaleField. now rewrite HA. }
  assert (HcB : Forall (fun d => convertible (TreeMapB.scaleField pB d)) src).
  { revert Hr. apply Forall_impl. intros d [_ Hc].
    unfold TreeMapB.scaleField. now rewrite HB. }
  pose proof (A_mapData_returns ts pA src HcA) as HoutA.
  pose proof (B_mapData_returns ts pB src HcB) as HoutB.
  split; [now rewrite EA|]. split; [now rewrite EA, EB|].
  do 3 eexists.
  split; [exact (script_mapData_readable ts src Hr)|].
  split; [exact HoutA|]. split; [exact HoutB|].
  destruct (script_mapData_colors ts src _ (script_mapData_readable ts src Hr))
    as (al & Hal & Hcol).
  rewrite ES in Hal. injection Hal as <-.
  rewrite Hcol, (A_mapData_colors ts pA src _ HoutA),
    (B_mapData_colors ts pB src _ HoutB), EA, EB.
  split; reflexivity.
Qed.

Lemma script_and_components_agree_witness :
  (Val.str_or (TreeMapA.scaleKey propsA) "scale" = "scale" /\
   Val.str_or (TreeMapB.scaleKey propsB) "scale" = "scale" /\
   Forall plain_scale scenario) /\
  Script.alphas scenario = Ok (TreeMapA.alphas propsA scenario).
Proof.
  assert (H : Forall plain_scale scenario).
  { repeat constructor. }
  split; [repeat split; exact H|].
  exact (proj1 (script_and_components_agree Number_toString_any propsA propsB
                  scenario eq_refl eq_refl H)).
Defined.

(** ** The colour text *)

Lemma fixed3_digits_band_all :
  forallb (fun n => String.eqb (Str.fixed3_digits n) ("0." ++ Str.of_Z n))
          band_thousandths = true.
Proof. vm_compute. reflexivity. Qed.

Lemma fixed3_digits_band (n : Z) :
  (500 <= n <= 900)%Z -> Str.fixed3_digits n = "0." ++ Str.of_Z n.
Proof.
  intros Hn. pose proof fixed3_digits_band_all as H.
  rewrite forallb_forall in H. apply String.eqb_eq. apply H.
  unfold band_thousandths. apply in_map_iff.
  exists (Z.to_nat n). split; [lia|]. apply in_seq. lia.
Qed.

Lemma rgba_alpha_text (ts : R -> string) (r : R) (n : Z) :
  0.5 <= r <= 0.9 -> IZR n <= r * 1000 + / 2 < IZR n + 1 ->
  (500 <= n <= 900)%Z /\ rgba ts Script.BASE_RGB (Fin r) = alpha_text n.
Proof.
  intros Hr Hn.
  assert (Hb : (500 <= n <= 900)%Z).
  { split.
    - destruct (Z_lt_le_dec n 500) as [Hlt|Hge]; [|exact Hge].
      assert (Hle : (n <= 499)%Z) by lia. apply IZR_le in Hle. lra.
    - destruct (Z_lt_le_dec 900 n) as [Hlt|Hge]; [|exact Hge].
      assert (Hle : (901 <= n)%Z) by lia. apply IZR_le in Hle. lra. }
  split; [exact Hb|].
  unfold rgba. rewrite (toFixed3_band ts r n Hr Hn), (fixed3_digits_band n Hb).
  reflexivity.
Qed.

Lemma computeAlpha_colour_of (ts : R -> string) (scale min max : jsnum) :
  colour_of (Script.computeAlpha scale min max)
            (rgba ts Script.BASE_RGB (Script.computeAlpha scale min max)).
Proof.
  destruct (computeAlpha_nan_or_band scale min max) as [->|Hb].
  - left. split; reflexivity.
  - right. destruct (Script.computeAlpha scale min max) as [| | |r];
      try contradiction.
    simpl in Hb.
    pose proof (base_Int_part (r * 1000 + / 2)) as [H1 H2].
    destruct (rgba_alpha_text ts r (Int_part (r * 1000 + / 2)) Hb) as [Hn Hc];
      [lra|].
    exists (Int_part (r * 1000 + / 2)), r.
    split; [reflexivity|]. split; [exact Hn|]. split; [lra | exact Hc].
Qed.

Lemma colour_of_text (a : jsnum) (c : string) : colour_of a c -> colour_text c.
Proof.
  intros [[_ H]|(n & r & _ & Hn & _ & Hc)]; [now left | right; now exists n].
Qed.

Lemma alphas_colour_text (ts : R -> string) (l : list jsnum) (c : string) :
  In c (map (rgba ts Script.BASE_RGB) (alphas_of l)) -> colour_text c.
Proof.
  unfold alphas_of. rewrite map_map. intros H.
  apply in_map_iff in H. destruct H as (s & <- & _).
  eapply colour_of_text, computeAlpha_colour_of.
Qed.

(** X9.  The colour that [mapData] writes is always one of 402 texts:
    [rgba(87, 129, 253, NaN)], or [rgba(87, 129, 253, 0.ddd)] where [ddd]
    is the alpha rounded to thousandths, a number from 500 to 900.  No other
    text, such as one with [Infinity], a sign or an exponent, is written. *)
Theorem colour_is_rgba_text
    (ts : R -> string) (pA : TreeMapA.Props) (pB : TreeMapB.Props)
    (src : list jsval) :
  (forall scale min max,
     colour_of (Script.computeAlpha scale min max)
               (rgba ts Script.BASE_RGB (Script.computeAlpha scale min max))) /\
  (forall out it, TreeMapA.mapData ts pA (Some src) = Ok out -> In it out ->
                  colour_text (TreeMapA.color (TreeMapA.itemStyle it))) /\
  (forall out it, TreeMapB.mapData ts pB (Some src) = Ok out -> In it out ->
                  colour_text (TreeMapB.color (TreeMapB.itemStyle it))) /\
  (forall out it, Script.mapData ts src = Ok out -> In it out ->
                  colour_text (Script.color (Script.itemStyle it))).
Proof.
  split; [apply computeAlpha_colour_of|]. split; [|split].
  - intros out it Hout Hit.
    apply (alphas_colour_text ts (TreeMapA.scales pA src)).
    change (In (TreeMapA.color (TreeMapA.itemStyle it))
               (map (rgba ts TreeMapA.BASE_RGB) (TreeMapA.alphas pA src))).
    rewrite <- (A_mapData_colors ts pA src out Hout).
    exact (in_map (fun it => TreeMapA.color (TreeMapA.itemStyle it)) _ it Hit).
  - intros out it Hout Hit.
    apply (alphas_colour_text ts (TreeMapB.scales pB src)).
    change (In (TreeMapB.color (TreeMapB.itemStyle it))
               (map (rgba ts TreeMapB.BASE_RGB) (TreeMapB.alphas pB src))).
    rewrite <- (B_mapData_colors ts pB src out Hout).
    exact (in_map (fun it => TreeMapB.color (TreeMapB.itemStyle it)) _ it Hit).
  - intros out it Hout Hit.
    pose proof (script_mapData_Ok_readable ts src out Hout) as Hr.
    destruct (script_mapData_colors ts src out Hout) as (al & Hal & Hcol).
    rewrite (script_alphas_readable src Hr) in Hal. injection Hal as <-.
    apply (alphas_colour_text ts (script_scales src)).
    unfold alphas_of. rewrite <- Hcol.
    exact (in_map (fun it => Script.color (Script.itemStyle it)) _ it Hit).
Qed.

(** ** The items of the components *)

Lemma nullish_or_not_nullish (v : jsval) : ~ nullish (Val.nullish_or v (VStr "")).
Proof. unfold nullish. destruct v; simpl; intros [H|H]; discriminate. Qed.

(** X10.  In the two components every item of [mapData] carries a number that
    is not [NaN] as [value] and [scale], the two being equal, and a name that
    is neither [null] nor [undefined] as [name] and [fund_name], the two
    being equal; its [raw] is one of the input records. *)
Theorem component_items_well_formed
    (ts : R -> string) (pA : TreeMapA.Props) (pB : TreeMapB.Props)
    (src : list jsval) :
  (forall out it, TreeMapA.mapData ts pA (Some src) = Ok out -> In it out ->
     TreeMapA.value it = TreeMapA.scale it /\
     JS.is_nan (TreeMapA.value it) = false /\
     TreeMapA.name it = TreeMapA.fund_name it /\
     ~ nullish (TreeMapA.name it) /\
     In (TreeMapA.raw it) src) /\
  (forall out it, TreeMapB.mapData ts pB (Some src) = Ok out -> In it out ->
     TreeMapB.value it = TreeMapB.scale it /\
     JS.is_nan (TreeMapB.value it) = false /\
     TreeMapB.name it = TreeMapB.fund_name it /\
     ~ nullish (TreeMapB.name it) /\
     In (TreeMapB.raw it) src).
Proof.
  split; intros out it Hout Hit.
  - destruct (A_mapData_Ok ts pA src out Hout) as [-> _].
    apply in_map_iff in Hit.
    destruct Hit as (d & <- & Hd). cbn.
    repeat split; try assumption.
    + apply or_else_not_nan.
    + apply nullish_or_not_nullish.
  - destruct (B_mapData_Ok ts pB src out Hout) as [-> _].
    apply in_map_iff in Hit.
    destruct Hit as (d & <- & Hd). cbn.
    repeat split; try assumption.
    + apply or_else_not_nan.
    + apply nullish_or_not_nullish.
Qed.

(** ** Tooltips and labels of the items *)

Lemma string_append_assoc (a b c : string) : (a ++ b) ++ c = a ++ (b ++ c).
Proof. induction a as [|x a IH]; simpl; [reflexivity | now rewrite IH]. Qed.

Lemma or_val_twice (v w : jsval) :
  Text.or_val (Text.or_val v v) w = Text.or_val v w.
Proof. unfold Text.or_val. destruct (Text.truthy v) eqn:E; rewrite ?E; reflexivity. Qed.


(** [v || ''] can be converted exactly when [v] can. *)
Lemma or_val_throws (v : jsval) :
  Val.throws (Text.or_val v (VStr "")) = Val.throws v.
Proof.
  unfold Text.or_val. destruct (Text.truthy v) eqn:E; [reflexivity|].
  destruct v; try reflexivity. discriminate.
Qed.

Lemma ToString_name (ts : R -> string) (v : jsval) :
  Text.ToString ts (Text.or_val v (VStr "")) =
  if Val.throws v then Throw TypeError else Ok (name_text ts v).
Proof. unfold Text.ToString. now rewrite or_val_throws. Qed.




Lemma B_label_item (ts : R -> string) (fb : jsval -> jsval)
    (p : TreeMapB.Props) (mn mx : jsnum) (d : jsval) :
  TreeMapBView.label_formatter ts fb (Some (itemB ts p mn mx d)) =
  if Val.throws (TreeMapB.nameVal p d) then Throw TypeError
  else
    val <- Text.ToString ts (fb (VNum (TreeMapB.scaleVal p d))) ;;
    Ok (VStr (name_text ts (TreeMapB.nameVal p d) ++ " (" ++ val ++ ")")).
Proof.
  unfold TreeMapBView.label_formatter.
  cbn [TreeMapBView.data_fund_name TreeMapBView.data_name
       TreeMapBView.data_scale itemB TreeMapB.fund_name TreeMapB.name
       TreeMapB.scale TreeMapB.is_empty_str].
  rewrite or_val_twice, ToString_name.
  destruct (Val.throws (TreeMapB.nameVal p d)); reflexivity.
Qed.




(** X12.  The label of the second component shows every item of [mapData]
    as the name followed by the scale through [formatBig] in parentheses,
    whatever [format] is, also for a record without a usable scale field,
    whose scale is 0; the name alone is shown only when there is no item. *)
Theorem label_of_record
    (ts : R -> string) (fb : jsval -> jsval) (pB : TreeMapB.Props) (f : string)
    (src : list jsval) (i : nat) (d : jsval) :
  nth_error src i = Some d ->
  (forall out, TreeMapB.mapData ts (with_format pB f) (Some src) = Ok out ->
   exists it,
     nth_error out i = Some it /\
     (convertible (TreeMapB.nameVal pB d) ->
      convertible (fb (VNum (TreeMapB.scaleVal pB d))) ->
      TreeMapBView.label_formatter ts fb (Some it) =
        Ok (VStr (name_text ts (TreeMapB.nameVal pB d) ++ " ("
                    ++ Text.to_string ts (fb (VNum (TreeMapB.scaleVal pB d)))
                    ++ ")"))) /\
     (~ (convertible (TreeMapB.nameVal pB d) /\
         convertible (fb (VNum (TreeMapB.scaleVal pB d)))) ->
      TreeMapBView.label_formatter ts fb (Some it) = Throw TypeError)) /\
  (Forall (fun e => convertible (TreeMapB.scaleField pB e)) src ->
   exists out, TreeMapB.mapData ts (with_format pB f) (Some src) = Ok out) /\
  TreeMapBView.label_formatter ts fb None = Ok (VStr "").
Proof.
  intros Hd. split; [|split; [|reflexivity]].
  - intros out Hout.
    destruct (B_mapData_Ok ts (with_format pB f) src out Hout) as [-> _].
    eexists. split; [rewrite nth_error_map, Hd; reflexivity|].
    rewrite B_label_item. unfold convertible, Text.ToString.
    change (TreeMapB.nameVal (with_format pB f) d) with (TreeMapB.nameVal pB d).
    change (TreeMapB.scaleVal (with_format pB f) d) with (TreeMapB.scaleVal pB d).
    destruct (Val.throws (TreeMapB.nameVal pB d));
      destruct (Val.throws (fb (VNum (TreeMapB.scaleVal pB d))));
      cbn [bind]; split; try reflexivity; try discriminate;
      try (intros _; discriminate); try (intros H; elim H; now split).
  - intros Hsrc. eexists.
    exact (B_mapData_returns ts (with_format pB f) src Hsrc).
Qed.

Lemma label_of_record_witness :
  nth_error unscaled 0 = Some (VObj [("name", VStr "Z")]) /\
  exists out it,
    TreeMapB.mapData Number_toString_any
      (with_format propsB "percent") (Some unscaled) = Ok out /\
    nth_error out 0 = Some it /\
    TreeMapBView.label_formatter Number_toString_any (fun v => v) (Some it) =
      Ok (VStr "Z (0)").
Proof.
  split; [reflexivity|].
  destruct (label_of_record Number_toString_any (fun v => v) propsB
              "percent" unscaled 0 (VObj [("name", VStr "Z")]) eq_refl)
    as (Hlabel & Hret & _).
  destruct Hret as [out Hout]; [repeat constructor|].
  destruct (Hlabel out Hout) as (it & Hit & Htext & _).
  exists out, it. split; [exact Hout|]. split; [exact Hit|].
  rewrite Htext by reflexivity.
  unfold name_text, TreeMapB.scaleVal, TreeMapB.scaleField.
  simpl. unfold JS.or_else, JS.truthy, Text.of_number. js_decide. reflexivity.
Defined.

(** X13.  The formatters that the watchers of [fontSize] and of [format]
    assign compute, for every [info.data], the result of the formatter that
    the option was created with: in the first component the two template
    literals joined by [+] give the text of the single one. *)
Theorem watchers_keep_tooltip
    (ts : R -> string) (fb dp fc : jsval -> jsval)
    (pA : TreeMapA.Props) (pB : TreeMapB.Props) :
  (forall data,
     TreeMapAView.formatter_fontSize ts pA data = TreeMapAView.formatter ts pA data) /\
  (forall data,
     TreeMapBView.tooltip_formatter_fontSize ts fb dp fc pB data =
     TreeMapBView.tooltip_formatter ts fb dp fc pB data) /\
  (forall data,
     TreeMapBView.tooltip_formatter_format ts fb dp fc pB data =
     TreeMapBView.tooltip_formatter ts fb dp fc pB data).
Proof.
  split; [|split; intros data; reflexivity].
  intros data. unfold TreeMapAView.formatter_fontSize, TreeMapAView.formatter.
  destruct (Text.ToString ts (Text.or_val (TreeMapAView.data_fund_name data) (VStr "")))
    as [name|e]; [|reflexivity].
  cbn [bind].
  destruct (Text.ToString ts (Text.or_val (TreeMapAView.data_scale data) (VStr "")))
    as [scale|e]; [|reflexivity].
  cbn [bind]. rewrite !string_append_assoc. reflexivity.
Qed.

(** ** The sizes of the wrapper *)

Lemma px_truthy (s : string) : Text.truthy (VStr (s ++ "px")) = true.
Proof. destruct s; reflexivity. Qed.

(** X14.  [normalizeSize], the same function in both components, gives a
    number the unit [px], 0 included, and keeps a string that is not empty;
    for a size of a declared type, a string or a number, the result is a
    string; the result is never [null] or [undefined], and normalising it
    again changes nothing. *)
Theorem normalizeSize_sizes (ts : R -> string) (v : jsval) :
  TreeMapBView.normalizeSize ts v = TreeMapAView.normalizeSize ts v /\
  (forall n, v = VNum n ->
     TreeMapAView.normalizeSize ts v = VStr (Text.of_number ts n ++ "px")) /\
  (v = VNum (Fin 0) -> TreeMapAView.normalizeSize ts v = VStr "0px") /\
  (forall s, v = VStr s -> TreeMapAView.normalizeSize ts v = VStr s) /\
  (size_value v -> exists s, TreeMapAView.normalizeSize ts v = VStr s) /\
  ~ nullish (TreeMapAView.normalizeSize ts v) /\
  TreeMapAView.normalizeSize ts (TreeMapAView.normalizeSize ts v) =
  TreeMapAView.normalizeSize ts v.
Proof.
  split; [reflexivity|]. split; [intros n ->; reflexivity|].
  split.
  { intros ->. unfold TreeMapAView.normalizeSize, Text.of_number.
    destruct (Req_dec_T 0 0) as [_|H]; [reflexivity | now elim H]. }
  split.
  { intros s ->. unfold TreeMapAView.normalizeSize, Text.or_val. cbn [Text.truthy].
    destruct s; reflexivity. }
  split.
  { destruct v; try contradiction; intros _.
    - eexists. reflexivity.
    - unfold TreeMapAView.normalizeSize, Text.or_val.
      destruct (Text.truthy (VStr s)); eexists; reflexivity. }
  split.
  { unfold nullish, TreeMapAView.normalizeSize, Text.or_val.
    destruct v as [| |b|n|s|o]; cbn [Text.truthy];
      try (intros [H|H]; discriminate).
    - destruct b; intros [H|H]; discriminate.
    - destruct (negb (s =? "")%string); intros [H|H]; discriminate. }
  destruct v as [| |b|n|s|o]; try reflexivity.
  - destruct b; reflexivity.
  - unfold TreeMapAView.normalizeSize at 2.
    unfold TreeMapAView.normalizeSize, Text.or_val. now rewrite px_truthy.
  - unfold TreeMapAView.normalizeSize, Text.or_val.
    destruct (Text.truthy (VStr s)) eqn:E; [now rewrite E | reflexivity].
Qed.

Lemma normalizeSize_sizes_witness :
  size_value (VStr "100%") /\
  exists s, TreeMapAView.normalizeSize Number_toString_any (VStr "100%") = VStr s.
Proof.
  split; [exact I|].
  exact (proj1 (proj2 (proj2 (proj2 (proj2
           (normalizeSize_sizes Number_toString_any (VStr "100%")))))) I).
Defined.

(** ** Formatters without an item *)

(** X15.  When [info.data] is missing the formatter of the script ends with
    a [TypeError], while those of the components return a text with empty
    fields: the opening tag, its end and the caption in the first, a colon
    and a blank in the second, and the empty label. *)
Theorem formatters_without_data
    (ts : R -> string) (fb dp fc : jsval -> jsval)
    (pA : TreeMapA.Props) (pB : TreeMapB.Props) :
  ScriptView.formatter ts None = Throw TypeError /\
  TreeMapAView.formatter ts pA None =
    Ok (tooltip_head ts (TreeMapA.fontSize pA) ++ "</div>规模：") /\
  TreeMapBView.tooltip_formatter ts fb dp fc pB None = Ok ": " /\
  TreeMapBView.label_formatter ts fb None = Ok (VStr "").
Proof.
  split; [reflexivity|]. split; [|split; reflexivity].
  unfold TreeMapAView.formatter, tooltip_head.
  cbn [TreeMapAView.data_fund_name TreeMapAView.data_scale].
  unfold Text.or_val, Text.ToString.
  cbn [Text.truthy Val.throws Text.to_string bind].
  rewrite !string_append_assoc. reflexivity.
Qed.

(** ** The data of the script *)

Lemma cos_PI10_bounds : 0.951 < cos (PI / 10) < 0.9511.
Proof.
  pose proof PI_RGT_0 as Hpi.
  set (x := PI / 10).
  assert (Hc : 0 < cos x) by (apply cos_gt_0; unfold x; lra).
  assert (Hs : 0 < sin x) by (apply sin_gt_0; unfold x; lra).
  assert (H3 : cos (2 * x + x) = sin (2 * x)).
  { rewrite <- cos_shift. f_equal. unfold x. lra. }
  rewrite cos_plus, cos_2a, sin_2a in H3.
  pose proof (sin2_cos2 x) as H1. unfold Rsqr in H1.
  assert (E : 4 * (sin x * sin x) + 2 * sin x - 1 = 0).
  { assert (H : cos x * (1 - 4 * (sin x * sin x) - 2 * sin x) = 0) by nra.
    apply Rmult_integral in H. destruct H; lra. }
  assert (Hs1 : 0.3090 < sin x < 0.3091) by nra.
  nra.
Qed.

Lemma rawData_scales :
  script_scales Script.rawData = [Fin 200; Fin 150; Fin 100; Fin 50; Fin 65].
Proof. reflexivity. Qed.

Lemma rawData_min_max :
  JS.Math_min [Fin 200; Fin 150; Fin 100; Fin 50; Fin 65] = Fin 50 /\
  JS.Math_max [Fin 200; Fin 150; Fin 100; Fin 50; Fin 65] = Fin 200.
Proof. split; js_fold; reflexivity. Qed.

Lemma rawData_colour_65 (ts : R -> string) :
  rgba ts Script.BASE_RGB (Script.computeAlpha (Fin 65) (Fin 50) (Fin 200)) =
  "rgba(87, 129, 253, 0.510)".
Proof.
  rewrite computeAlpha_small by lra.
  replace ((65 - 50) / (200 - 50)) with (1 / 10) by lra.
  rewrite clamp_id by lra. rewrite ease_eq.
  replace (PI * (1 / 10)) with (PI / 10) by lra.
  pose proof cos_PI10_bounds as Hc.
  destruct (rgba_alpha_text ts (0.7 - 0.2 * cos (PI / 10)) 510) as [_ ->];
    [lra | lra | reflexivity].
Qed.

(** X16.  The data that the script draws: its five records in their order,
    with the colours [0.900], [0.800], [0.600], [0.500] and, for the scale
    65 at a tenth of the range, [0.510]. *)
Theorem treemapData_colours (ts : R -> string) :
  exists out,
    Script.treemapData ts = Ok out /\
    map (fun it => (Script.name it, Script.value it,
                    Script.color (Script.itemStyle it))) out =
    [(VStr "新能源A", VNum (Fin 200), "rgba(87, 129, 253, 0.900)");
     (VStr "消费龙头", VNum (Fin 150), "rgba(87, 129, 253, 0.800)");
     (VStr "医药创新", VNum (Fin 100), "rgba(87, 129, 253, 0.600)");
     (VStr "中证500", VNum (Fin 50), "rgba(87, 129, 253, 0.500)");
     (VStr "港股科技", VNum (Fin 65), "rgba(87, 129, 253, 0.510)")].
Proof.
  assert (Hr : Forall processable Script.rawData) by (repeat constructor).
  eexists. split; [exact (script_mapData_readable ts Script.rawData Hr)|].
  rewrite rawData_scales.
  destruct rawData_min_max as [-> ->].
  destruct (rgba_examples ts) as (H9 & H8 & H6 & H5 & _).
  rewrite <- scenario_alpha_A in H9. rewrite <- scenario_alpha_B in H8.
  rewrite <- scenario_alpha_C in H6. rewrite <- scenario_alpha_D in H5.
  pose proof (rawData_colour_65 ts) as H65.
  unfold Script.rawData.
  cbn [map script_item Script.name Script.value Script.color Script.itemStyle
       Val.get_opt Val.lookup Val.Number String.eqb Ascii.eqb Bool.eqb].
  rewrite H9, H8, H6, H5, H65. reflexivity.
Qed.

(** ** A further record inside the range *)

Lemma le_not_lt (a b : jsnum) : JS.le a b = true -> JS.lt b a = false.
Proof.
  destruct a as [| | |a], b as [| | |b]; cbn [JS.le JS.lt];
    try reflexivity; try discriminate.
  destruct (Rle_dec a b), (Rlt_dec b a); try reflexivity; try discriminate; lra.
Qed.

Lemma le_not_nan (a b : jsnum) :
  JS.le a b = true -> JS.is_nan a = false /\ JS.is_nan b = false.
Proof. destruct a, b; cbn [JS.le]; try discriminate; split; reflexivity. Qed.

Lemma put_in_Permutation {A : Type} (n : nat) (x : A) (l : list A) :
  Permutation (put_in n x l) (l ++ [x]).
Proof.
  unfold put_in. rewrite <- (firstn_skipn n l) at 3.
  rewrite <- app_assoc. apply Permutation_app_head.
  apply Permutation_cons_append.
Qed.

Lemma Math_min_max_put_in (n : nat) (x : jsnum) (l : list jsnum) :
  JS.le (JS.Math_min l) x = true -> JS.le x (JS.Math_max l) = true ->
  JS.Math_min (put_in n x l) = JS.Math_min l /\
  JS.Math_max (put_in n x l) = JS.Math_max l.
Proof.
  intros Hlo Hhi.
  destruct (Math_min_max_Permutation _ _ (put_in_Permutation n x l)) as [-> ->].
  pose proof (le_not_lt _ _ Hlo) as Hlo'. pose proof (le_not_lt _ _ Hhi) as Hhi'.
  destruct (le_not_nan _ _ Hlo) as [Hmin Hx].
  unfold JS.Math_min, JS.Math_max in *.
  rewrite existsb_app. cbn [existsb]. rewrite Hx.
  destruct (existsb JS.is_nan l); [discriminate|]. cbn [orb].
  rewrite !fold_left_app. cbn [fold_left].
  now rewrite Hlo', Hhi'.
Qed.

Lemma alphas_of_put_in (n : nat) (x : jsnum) (l : list jsnum) :
  JS.le (JS.Math_min l) x = true -> JS.le x (JS.Math_max l) = true ->
  alphas_of (put_in n x l) =
  put_in n (Script.computeAlpha x (JS.Math_min l) (JS.Math_max l)) (alphas_of l).
Proof.
  intros Hlo Hhi. unfold alphas_of.
  destruct (Math_min_max_put_in n x l Hlo Hhi) as [-> ->].
  unfold put_in. rewrite map_app. cbn [map].
  now rewrite firstn_map, skipn_map.
Qed.

Lemma map_put_in {A B : Type} (f : A -> B) (n : nat) (x : A) (l : list A) :
  map f (put_in n x l) = put_in n (f x) (map f l).
Proof.
  unfold put_in. rewrite map_app. cbn [map]. now rewrite firstn_map, skipn_map.
Qed.

(** X17.  The colours depend on the other records only through the least and
    the greatest scale: a record put in at any place, whose scale lies
    between them, gets its alpha against them and leaves the alpha of every
    other record as it was. *)
Theorem record_inside_range
    (pA : TreeMapA.Props) (pB : TreeMapB.Props)
    (n : nat) (d : jsval) (src : list jsval) :
  (JS.le (JS.Math_min (TreeMapA.scales pA src)) (TreeMapA.scaleVal pA d) = true ->
   JS.le (TreeMapA.scaleVal pA d) (JS.Math_max (TreeMapA.scales pA src)) = true ->
   TreeMapA.alphas pA (put_in n d src) =
   put_in n (TreeMapA.computeAlpha (TreeMapA.scaleVal pA d)
               (JS.Math_min (TreeMapA.scales pA src))
               (JS.Math_max (TreeMapA.scales pA src)))
            (TreeMapA.alphas pA src)) /\
  (JS.le (JS.Math_min (TreeMapB.scales pB src)) (TreeMapB.scaleVal pB d) = true ->
   JS.le (TreeMapB.scaleVal pB d) (JS.Math_max (TreeMapB.scales pB src)) = true ->
   TreeMapB.alphas pB (put_in n d src) =
   put_in n (TreeMapB.computeAlpha (TreeMapB.scaleVal pB d)
               (JS.Math_min (TreeMapB.scales pB src))
               (JS.Math_max (TreeMapB.scales pB src)))
            (TreeMapB.alphas pB src)) /\
  (Forall readable (d :: src) ->
   JS.le (JS.Math_min (script_scales src)) (Val.Number (Val.get_opt d "scale")) = true ->
   JS.le (Val.Number (Val.get_opt d "scale")) (JS.Math_max (script_scales src)) = true ->
   exists al,
     Script.alphas src = Ok al /\
     Script.alphas (put_in n d src) =
     Ok (put_in n (Script.computeAlpha (Val.Number (Val.get_opt d "scale"))
                     (JS.Math_min (script_scales src))
                     (JS.Math_max (script_scales src))) al)).
Proof.
  split; [|split].
  - intros Hlo Hhi.
    change (alphas_of (TreeMapA.scales pA (put_in n d src)) =
            put_in n (Script.computeAlpha (TreeMapA.scaleVal pA d)
                        (JS.Math_min (TreeMapA.scales pA src))
                        (JS.Math_max (TreeMapA.scales pA src)))
                     (alphas_of (TreeMapA.scales pA src))).
    rewrite <- alphas_of_put_in by assumption.
    f_equal. apply map_put_in.
  - intros Hlo Hhi.
    change (alphas_of (TreeMapB.scales pB (put_in n d src)) =
            put_in n (Script.computeAlpha (TreeMapB.scaleVal pB d)
                        (JS.Math_min (TreeMapB.scales pB src))
                        (JS.Math_max (TreeMapB.scales pB src)))
                     (alphas_of (TreeMapB.scales pB src))).
    rewrite <- alphas_of_put_in by assumption.
    f_equal. apply map_put_in.
  - intros Hr Hlo Hhi.
    destruct (le_not_nan _ _ Hlo) as [Hmin Hx].
    assert (Hsrc : Forall processable src).
    { apply no_nan_processable; [now inversion Hr|].
      unfold JS.Math_min in Hmin.
      destruct (existsb JS.is_nan (script_scales src)); [discriminate | reflexivity]. }
    assert (Hd : processable d).
    { split; [now inversion Hr | now apply not_nan_convertible]. }
    assert (Hput : Forall processable (put_in n d src)).
    { apply (Permutation_Forall (Permutation_sym (put_in_Permutation n d src))).
      apply Forall_app. split; [exact Hsrc|]. now constructor. }
    exists (alphas_of (script_scales src)).
    split; [exact (script_alphas_readable src Hsrc)|].
    rewrite (script_alphas_readable _ Hput).
    change (Ok (alphas_of (script_scales (put_in n d src))) =
            Ok (put_in n (Script.computeAlpha (Val.Number (Val.get_opt d "scale"))
                            (JS.Math_min (script_scales src))
                            (JS.Math_max (script_scales src)))
                         (alphas_of (script_scales src)))).
    rewrite <- alphas_of_put_in by assumption.
    do 2 f_equal.
    exact (map_put_in (fun d => Val.Number (Val.get_opt d "scale")) n d src).
Qed.

Lemma record_inside_range_witness :
  (JS.le (JS.Math_min (TreeMapA.scales propsA scenario))
         (TreeMapA.scaleVal propsA inside_record) = true /\
   JS.le (TreeMapA.scaleVal propsA inside_record)
         (JS.Math_max (TreeMapA.scales propsA scenario)) = true) /\
  TreeMapA.alphas propsA (put_in 2 inside_record scenario) =
  put_in 2 (TreeMapA.computeAlpha (TreeMapA.scaleVal propsA inside_record)
              (JS.Math_min (TreeMapA.scales propsA scenario))
              (JS.Math_max (TreeMapA.scales propsA scenario)))
           (TreeMapA.alphas propsA scenario).
Proof.
  assert (Hv : TreeMapA.scaleVal propsA inside_record = Fin 120).
  { unfold TreeMapA.scaleVal, TreeMapA.scaleField, inside_record, record. simpl.
    unfold JS.or_else, JS.truthy. js_decide. reflexivity. }
  assert (Hlo : JS.le (JS.Math_min (TreeMapA.scales propsA scenario))
                      (TreeMapA.scaleVal propsA inside_record) = true).
  { rewrite Hv, scenario_scales_A, scenario_min. cbn [JS.le]. js_decide;
    reflexivity. }
  assert (Hhi : JS.le (TreeMapA.scaleVal propsA inside_record)
                      (JS.Math_max (TreeMapA.scales propsA scenario)) = true).
  { rewrite Hv, scenario_scales_A, scenario_max. cbn [JS.le]. js_decide;
    reflexivity. }
  split; [split; assumption|].
  exact (proj1 (record_inside_range propsA propsB 2 inside_record scenario)
           Hlo Hhi).
Defined.
